(** * The user ledger route: webui/app/api/users/route.ts

    A shallow embedding of the three HTTP handlers [POST], [GET] and [PUT]
    of the route, together with the parts of their collaborators that the
    handlers rely on:

    - next-auth's [getServerSession], which yields [Session | null];
    - mysql2's promise connection ([createConnection], [execute], [query],
      [end]) in front of a [users] table.

    The handlers are written in a state-and-exception monad ([M], the
    counterpart of an async function that may reject) over a [World] that
    holds the table, the server clock, the ambient session, the
    outcomes the driver is going to deliver, and a trace of the external
    calls made so far.

    What is taken from outside the route file:

    - the schema of [users]: the five columns of the INSERT statement, with
      nullable text columns, an integer balance without a bound, no
      uniqueness constraint on [email], and a collation for [email] that is
      a parameter of the development;
    - the driver: [createConnection], [execute] and [query] may fail for
      reasons of their own (the [faults] of the world), [execute] refuses
      an [undefined] bind parameter, and [end] always resolves;
    - the session: [getServerSession] returns a value and does not throw. *)

From Stdlib Require Import List String ZArith Bool Lia RelationClasses.
Import ListNotations.
Local Open Scope string_scope.
Local Open Scope Z_scope.
Local Open Scope list_scope.

(** ** JavaScript optional values *)

(** A value of TypeScript type [T | null | undefined].  An absent object
    property reads as [Undefined]. *)
Inductive JsOpt (T : Type) : Type :=
| Undefined
| Null
| Val (v : T).
Arguments Undefined {T}.
Arguments Null {T}.
Arguments Val {T} v.

(** [o?.f] : optional chaining. *)
Definition opt_chain {A B : Type} (o : JsOpt A) (f : A -> JsOpt B) : JsOpt B :=
  match o with
  | Val a => f a
  | _ => Undefined
  end.

(** Truthiness of an optional string: [null], [undefined] and the empty
    string are falsy. *)
Definition truthy_string (o : JsOpt string) : bool :=
  match o with
  | Val s => negb (s =? "")%string
  | _ => false
  end.

Definition is_undefined {A : Type} (o : JsOpt A) : bool :=
  match o with
  | Undefined => true
  | _ => false
  end.

(** ** The session (next-auth) *)

Module NextAuth.

(** [Session["user"]] : [{ name?: string | null; email?: string | null;
    image?: string | null }]. *)
Record User : Type := mkUser {
  name : JsOpt string;
  email : JsOpt string;
  image : JsOpt string
}.

(** [Session] : [{ user?: User }] (the expiry is never read by the route). *)
Record Session : Type := mkSession {
  user : JsOpt User
}.

End NextAuth.

(** [sesh?.user?.name] and [sesh?.user?.image] *)
Definition session_user_name (sesh : JsOpt NextAuth.Session) : JsOpt string :=
  opt_chain (opt_chain sesh NextAuth.user) NextAuth.name.

Definition session_user_image (sesh : JsOpt NextAuth.Session) : JsOpt string :=
  opt_chain (opt_chain sesh NextAuth.user) NextAuth.image.

(** ** The users table *)

Module Users.

(** One row of [users].  The schema is not part of the route file; the
    columns are those the INSERT statement names.  Text columns are
    nullable, [token_remaining] is an integer that is taken unbounded,
    and [signup_date] is the value of [NOW()] as a number. *)
Record row : Type := mkRow {
  name : option string;
  email : option string;
  google_image_url : option string;
  token_remaining : Z;
  signup_date : Z
}.

Definition add_tokens (d : Z) (r : row) : row :=
  {| name := name r;
     email := email r;
     google_image_url := google_image_url r;
     token_remaining := token_remaining r + d;
     signup_date := signup_date r |}.

Definition sub_tokens (d : Z) (r : row) : row :=
  {| name := name r;
     email := email r;
     google_image_url := google_image_url r;
     token_remaining := token_remaining r - d;
     signup_date := signup_date r |}.

End Users.

(** ** SQL statements of the route *)

(** The statement texts that occur in the route. *)
Inductive Sql : Type :=
| SelectUsersWhereEmail
    (* SELECT * FROM users WHERE email = ? *)
| InsertUser
    (* INSERT INTO users (name, email, google_image_url, token_remaining,
       signup_date) VALUES (?, ?, ?, 5, NOW()) *)
| UpdateTokensPlus (d : Z)
    (* UPDATE users SET token_remaining = token_remaining + d WHERE email = ? *)
| UpdateTokensMinus (d : Z)
    (* UPDATE users SET token_remaining = token_remaining - d WHERE email = ? *)
| SelectUsers.
    (* SELECT * FROM users *)

(** A bind parameter as the route passes it to the driver. *)
Definition Param : Type := JsOpt string.

(** JavaScript [null] is sent as SQL NULL. *)
Definition to_sql (p : Param) : option string :=
  match p with
  | Val s => Some s
  | _ => None
  end.

Definition is_write (q : Sql) : bool :=
  match q with
  | InsertUser | UpdateTokensPlus _ | UpdateTokensMinus _ => true
  | SelectUsersWhereEmail | SelectUsers => false
  end.

(** ** Requests, responses, exceptions, events *)

(** The inbound [Request].  No handler reads any of it. *)
Record Request : Type := mkRequest {
  req_url : string;
  req_headers : list (string * string);
  req_body : string
}.

Definition with_body (b : string) (r : Request) : Request :=
  {| req_url := req_url r; req_headers := req_headers r; req_body := b |}.

(** The value handed to [JSON.stringify]: an object with string fields, or
    the rows of a result set as the driver returned them. *)
Inductive Json : Type :=
| JObject (fields : list (string * string))
| JRows (rows : list Users.row).

Record Response : Type := mkResponse {
  status : Z;
  headers : list (string * string);
  body : Json
}.

Definition json_response (st : Z) (b : Json) : Response :=
  {| status := st;
     headers := [("Content-Type", "application/json")];
     body := b |}.

Inductive Exn : Type :=
| TypeError (msg : string)
| DbError.

Inductive Logged : Type :=
| LogText (s : string)
| LogSession (s : JsOpt NextAuth.Session)
| LogError (e : Exn).

(** The external calls a handler makes, in order. *)
Inductive Event : Type :=
| EvGetServerSession
| EvCreateConnection
| EvStatement (q : Sql) (params : list Param)
| EvEnd
| EvConsole (l : Logged).

(** The statements of a trace that write to the table. *)
Definition db_writes (tr : list Event) : list Event :=
  filter (fun ev => match ev with
                    | EvStatement q _ => is_write q
                    | _ => false
                    end) tr.

(** The statements of a trace, reads and writes. *)
Definition db_statements (tr : list Event) : list Event :=
  filter (fun ev => match ev with
                    | EvStatement _ _ => true
                    | _ => false
                    end) tr.

Definition session_calls (tr : list Event) : list Event :=
  filter (fun ev => match ev with
                    | EvGetServerSession => true
                    | _ => false
                    end) tr.

(** ** The world a handler runs in *)

(** [faults] lists, call by call, whether the next call into the database
    driver fails (connection refused, server error, ...); once the list is
    used up every call succeeds. *)
Record World : Type := mkWorld {
  users : list Users.row;
  now : Z;
  session : JsOpt NextAuth.Session;
  faults : list bool;
  trace : list Event
}.

Definition set_users (u : list Users.row) (w : World) : World :=
  {| users := u; now := now w; session := session w;
     faults := faults w; trace := trace w |}.

Definition set_session (s : JsOpt NextAuth.Session) (w : World) : World :=
  {| users := users w; now := now w; session := s;
     faults := faults w; trace := trace w |}.

Definition set_faults (f : list bool) (w : World) : World :=
  {| users := users w; now := now w; session := session w;
     faults := f; trace := trace w |}.

Definition log (ev : Event) (w : World) : World :=
  {| users := users w; now := now w; session := session w;
     faults := faults w; trace := trace w ++ [ev] |}.

(** No call into the driver is going to fail. *)
Definition fault_free (w : World) : bool := forallb negb (faults w).

(** ** The monad of handlers: state plus exceptions *)

Inductive Outcome (A : Type) : Type :=
| Ret (a : A)
| Throw (e : Exn).
Arguments Ret {A} a.
Arguments Throw {A} e.

Definition M (A : Type) : Type := World -> Outcome A * World.

Definition ret {A : Type} (a : A) : M A := fun w => (Ret a, w).

Definition throw {A : Type} (e : Exn) : M A := fun w => (Throw e, w).

Definition bind {A B : Type} (m : M A) (k : A -> M B) : M B :=
  fun w =>
    match m w with
    | (Ret a, w') => k a w'
    | (Throw e, w') => (Throw e, w')
    end.

(** [try { m } catch (error) { h error }] *)
Definition try_catch {A : Type} (m : M A) (h : Exn -> M A) : M A :=
  fun w =>
    match m w with
    | (Ret a, w') => (Ret a, w')
    | (Throw e, w') => h e w'
    end.

Notation "x <- m ;; k" := (bind m (fun x => k))
  (at level 61, m at next level, right associativity).
Notation "m ;;; k" := (bind m (fun _ => k))
  (at level 61, right associativity).

(** The binary collation: two strings are equal when they are the same. *)
Definition binary : string -> string -> bool := String.eqb.

Definition some_request : Request :=
  {| req_url := "/api/users"; req_headers := []; req_body := "" |}.

(** The row that registration is expected to add for session [sesh],
    email [e], at time [t]. *)
Definition new_user (sesh : JsOpt NextAuth.Session) (e : string) (t : Z)
    : Users.row :=
  {| Users.name := to_sql (session_user_name sesh);
     Users.email := Some e;
     Users.google_image_url := to_sql (session_user_image sesh);
     Users.token_remaining := 5;
     Users.signup_date := t |}.

(** Two rows that agree on every column but the balance. *)
Definition same_account (r r' : Users.row) : Prop :=
  Users.name r' = Users.name r
  /\ Users.email r' = Users.email r
  /\ Users.google_image_url r' = Users.google_image_url r
  /\ Users.signup_date r' = Users.signup_date r.

(** Table [t'] still has every row of [t], by email and in order, and
    possibly more after them. *)
Definition grows_by_email (t t' : list Users.row) : Prop :=
  exists extra, map Users.email t' = map Users.email t ++ extra.

(** A relation between worlds that only looks at the tables. *)
Definition on_tables (P : list Users.row -> list Users.row -> Prop)
    (w w' : World) : Prop :=
  P (users w) (users w').

Definition keeps_accounts : World -> World -> Prop := on_tables grows_by_email.

(** A computation whose every run, returning or throwing, relates the
    world before to the world after by [R]. *)
Definition preserves {A : Type} (R : World -> World -> Prop) (m : M A) : Prop :=
  forall w, R w (snd (m w)).

(** ** Concrete sessions, rows and worlds used in examples *)

Definition signed_in (u : NextAuth.User) : JsOpt NextAuth.Session :=
  Val {| NextAuth.user := Val u |}.

(** The identity [{ email: 'a@x.com' }]: no [name], no [image]. *)
Definition bare_identity : NextAuth.User :=
  {| NextAuth.name := Undefined;
     NextAuth.email := Val "a@x.com";
     NextAuth.image := Undefined |}.

(** The identity [{ name: 'Ada', email: 'a@x.com', image: null }]. *)
Definition named_identity : NextAuth.User :=
  {| NextAuth.name := Val "Ada";
     NextAuth.email := Val "a@x.com";
     NextAuth.image := Null |}.

(** The identity [{ name: 'Bob' }]: a user without an [email] property. *)
Definition identity_without_email : NextAuth.User :=
  {| NextAuth.name := Val "Bob";
     NextAuth.email := Undefined;
     NextAuth.image := Undefined |}.

Definition account (e : string) (tokens : Z) : Users.row :=
  {| Users.name := None;
     Users.email := Some e;
     Users.google_image_url := None;
     Users.token_remaining := tokens;
     Users.signup_date := 0 |}.

(** A world with the given table and session, a driver that does not fail
    and an empty trace. *)
Definition world_of (tbl : list Users.row) (s : JsOpt NextAuth.Session)
    : World :=
  {| users := tbl; now := 1700000000; session := s; faults := []; trace := [] |}.

Section Route.

(** How the [email] column compares two strings under [=].  The collation
    belongs to the schema, which the route file does not contain. *)
Variable collate : string -> string -> bool.

(** [column = ?] in a WHERE clause: a comparison involving NULL is not
    true, so it selects nothing. *)
Definition sql_eq (col : option string) (p : Param) : bool :=
  match col, p with
  | Some a, Val b => collate a b
  | _, _ => false
  end.

(** The server's execution of a statement at time [t] on table [tbl]:
    the result set and the table afterwards.  A parameter list of the
    wrong length is an error.  Rows are kept in insertion order. *)
Definition run_sql (q : Sql) (params : list Param) (t : Z)
    (tbl : list Users.row) : option (list Users.row * list Users.row) :=
  match q, params with
  | SelectUsersWhereEmail, [p] =>
      Some (filter (fun r => sql_eq (Users.email r) p) tbl, tbl)
  | InsertUser, [n; e; i] =>
      Some ([], tbl ++ [ {| Users.name := to_sql n;
                            Users.email := to_sql e;
                            Users.google_image_url := to_sql i;
                            Users.token_remaining := 5;
                            Users.signup_date := t |} ])
  | UpdateTokensPlus d, [p] =>
      Some ([], map (fun r => if sql_eq (Users.email r) p
                              then Users.add_tokens d r else r) tbl)
  | UpdateTokensMinus d, [p] =>
      Some ([], map (fun r => if sql_eq (Users.email r) p
                              then Users.sub_tokens d r else r) tbl)
  | SelectUsers, [] => Some (tbl, tbl)
  | _, _ => None
  end.

(** *** The collaborators *)

(** [getServerSession()] : reads the ambient session. *)
Definition getServerSession : M (JsOpt NextAuth.Session) :=
  fun w => (Ret (session w), log EvGetServerSession w).

(** Takes the outcome of the next driver call off [faults]. *)
Definition driver_call : M unit :=
  fun w =>
    let w' := set_faults (tl (faults w)) w in
    if hd false (faults w) then (Throw DbError, w') else (Ret tt, w').

Definition record (ev : Event) : M unit := fun w => (Ret tt, log ev w).

(** [createConnection(dbConfig)].  The configuration only decides whether
    the connection can be opened, which [faults] settles. *)
Definition createConnection : M unit :=
  driver_call ;;; record EvCreateConnection.

(** The statement as the server runs it. *)
Definition statement (q : Sql) (params : list Param) : M (list Users.row) :=
  driver_call ;;;
  (fun w =>
     match run_sql q params (now w) (users w) with
     | Some (rows, tbl') =>
         (Ret rows, log (EvStatement q params) (set_users tbl' w))
     | None => (Throw DbError, w)
     end).

(** [connection.execute(sql, params)] : a prepared statement.  mysql2
    rejects an [undefined] bind parameter with a TypeError before
    anything is sent (a JavaScript [null] is what stands for SQL NULL). *)
Definition execute (q : Sql) (params : list Param) : M (list Users.row) :=
  if existsb is_undefined params
  then throw (TypeError "Bind parameters must not contain undefined. To pass SQL NULL specify JS null")
  else statement q params.

(** [connection.query(sql)] *)
Definition query (q : Sql) : M (list Users.row) := statement q [].

(** [connection.end()] : the promise wrapper is
    [new Promise(resolve => connection.end(resolve))], which has no way to
    reject, so the call returns on every run. *)
Definition connection_end : M unit := record EvEnd.

Definition console_log (l : Logged) : M unit := record (EvConsole l).

Definition console_error (e : Exn) : M unit := record (EvConsole (LogError e)).

(** *** POST: register or top up *)

(** Lines 26-30: [email] stays [null] unless [sesh], [sesh.user] and
    [sesh.user.email] are all truthy (an object is truthy, [null] and
    [undefined] are not). *)
Definition POST_email (sesh : JsOpt NextAuth.Session) : option string :=
  match sesh with
  | Val s =>
      match NextAuth.user s with
      | Val u =>
          match NextAuth.email u with
          | Val e => if truthy_string (Val e) then Some e else None
          | _ => None
          end
      | _ => None
      end
  | _ => None
  end.

Definition POST (req : Request) : M Response :=
  try_catch
    (sesh <- getServerSession ;;
     match POST_email sesh with
     | None =>
         ret (json_response 400 (JObject [("error", "No email provided")]))
     | Some email =>
         createConnection ;;;
         users <- execute SelectUsersWhereEmail [Val email] ;;
         (if (Z.of_nat (List.length users) =? 0)
          then
            execute InsertUser
              [ session_user_name sesh; Val email; session_user_image sesh ] ;;;
            console_log (LogText "User added with default tokens")
          else
            execute (UpdateTokensPlus 5) [Val email] ;;;
            console_log (LogText "Tokens updated for existing user")) ;;;
         connection_end ;;;
         ret (json_response 200 (JObject [("message", "Operation successful")]))
     end)
    (fun error =>
       console_error error ;;;
       ret (json_response 500 (JObject [("error", "Failed to execute operation")]))).

(** *** GET: list *)

Definition GET (req : Request) : M Response :=
  try_catch
    (createConnection ;;;
     rows <- query SelectUsers ;;
     connection_end ;;;
     ret (json_response 200 (JRows rows)))
    (fun error =>
       ret (json_response 500 (JObject [("error", "Failed to fetch users")]))).

(** *** PUT: debit *)

(** Lines 103-106: [email] is [sesh.user.email] when [sesh] and
    [sesh.user] are truthy, whatever that property holds, and [null]
    otherwise. *)
Definition PUT_email (sesh : JsOpt NextAuth.Session) : Param :=
  match sesh with
  | Val s =>
      match NextAuth.user s with
      | Val u => NextAuth.email u
      | _ => Null
      end
  | _ => Null
  end.

Definition PUT (req : Request) : M Response :=
  try_catch
    (sesh <- getServerSession ;;
     console_log (LogSession sesh) ;;;
     createConnection ;;;
     execute (UpdateTokensMinus 1) [PUT_email sesh] ;;;
     console_log (LogText "query executed") ;;;
     connection_end ;;;
     ret (json_response 200 (JObject [("message", "1 token subtracted successfully")])))
    (fun error =>
       ret (json_response 500 (JObject [("error", "Failed to subtract tokens")]))).

End Route.

(** ** Notions used to describe every run of a handler *)

(** The first [n] calls into the driver succeed. *)
Definition calls_ok (n : nat) (w : World) : bool :=
  forallb negb (firstn n (faults w)).

(** Some row of [tbl] has an email equal to [e] under the collation: the
    SELECT of POST returns at least one row. *)
Definition has_match (collate : string -> string -> bool) (e : string)
    (tbl : list Users.row) : bool :=
  existsb (fun r => sql_eq collate (Users.email r) (Val e)) tbl.

(** The table after the UPDATE of POST for email [e]. *)
Definition top_up (collate : string -> string -> bool) (e : string)
    (tbl : list Users.row) : list Users.row :=
  map (fun r => if sql_eq collate (Users.email r) (Val e)
                then Users.add_tokens 5 r else r) tbl.

(** The table after the UPDATE of PUT for parameter [p]. *)
Definition debit (collate : string -> string -> bool) (p : Param)
    (tbl : list Users.row) : list Users.row :=
  map (fun r => if sql_eq collate (Users.email r) p
                then Users.sub_tokens 1 r else r) tbl.

(** The responses the route can give. *)
Definition POST_ok : Response :=
  json_response 200 (JObject [("message", "Operation successful")]).

Definition POST_no_email : Response :=
  json_response 400 (JObject [("error", "No email provided")]).

Definition POST_failed : Response :=
  json_response 500 (JObject [("error", "Failed to execute operation")]).

Definition GET_failed : Response :=
  json_response 500 (JObject [("error", "Failed to fetch users")]).

Definition PUT_ok : Response :=
  json_response 200 (JObject [("message", "1 token subtracted successfully")]).

Definition PUT_failed : Response :=
  json_response 500 (JObject [("error", "Failed to subtract tokens")]).

(** The handler resolved to a response with status [st]. *)
Definition answered (o : Outcome Response) (st : Z) : bool :=
  match o with
  | Ret r => status r =? st
  | Throw _ => false
  end.

Definition is_console (ev : Event) : bool :=
  match ev with
  | EvConsole _ => true
  | _ => false
  end.

Definition is_error_log (ev : Event) : bool :=
  match ev with
  | EvConsole (LogError _) => true
  | _ => false
  end.

(** The world after [n] calls of a handler, one after the other. *)
Definition repeatedly (h : M Response) (n : nat) (w : World) : World :=
  Nat.iter n (fun w => snd (h w)) w.

Definition is_open (ev : Event) : bool :=
  match ev with
  | EvCreateConnection => true
  | _ => false
  end.

Definition is_end (ev : Event) : bool :=
  match ev with
  | EvEnd => true
  | _ => false
  end.

(** Two values of the [email] column that [=] holds of; NULL equals
    nothing. *)
Definition sql_match (collate : string -> string -> bool)
    (a b : option string) : bool :=
  match a, b with
  | Some x, Some y => collate x y
  | _, _ => false
  end.

(** No value of the list is matched by a later one. *)
Fixpoint distinct (collate : string -> string -> bool)
    (l : list (option string)) : bool :=
  match l with
  | [] => true
  | a :: rest =>
      forallb (fun b => negb (sql_match collate a b)) rest
      && distinct collate rest
  end.

(** No email of the table is matched by the email of a later row. *)
Definition distinct_emails (collate : string -> string -> bool)
    (tbl : list Users.row) : bool :=
  distinct collate (map Users.email tbl).

(** The row has an email that is neither NULL nor empty. *)
Definition has_email (r : Users.row) : bool :=
  match Users.email r with
  | Some e => negb (e =? "")%string
  | None => false
  end.

(** *** Calls one after the other *)

(** The route exports one handler per HTTP method. *)
Inductive Method : Type := MPOST | MGET | MPUT.

Definition handle (collate : string -> string -> bool) (m : Method)
    : Request -> M Response :=
  match m with
  | MPOST => POST collate
  | MGET => GET collate
  | MPUT => PUT collate
  end.

(** One call and what surrounds it: the session of the caller, the clock
    and the behaviour of the driver at that time. *)
Record Call : Type := mkCall {
  call_method : Method;
  call_request : Request;
  call_session : JsOpt NextAuth.Session;
  call_now : Z;
  call_faults : list bool
}.

(** The world after serving one call: the table and the trace carry over
    from call to call. *)
Definition serve (collate : string -> string -> bool) (c : Call) (w : World)
    : World :=
  snd (handle collate (call_method c) (call_request c)
         {| users := users w;
            now := call_now c;
            session := call_session c;
            faults := call_faults c;
            trace := trace w |}).

Definition serve_all (collate : string -> string -> bool) (cs : list Call)
    (w : World) : World :=
  fold_left (fun w c => serve collate c w) cs w.

(** A debit before any registration, two registrations (the second with a
    failing UPDATE), a registration by a user without a name, a debit
    without a session and a listing that cannot connect. *)
Definition example_calls : list Call :=
  [ mkCall MPUT some_request (signed_in named_identity) 1 [];
    mkCall MPOST some_request (signed_in named_identity) 2 [];
    mkCall MPOST some_request (signed_in named_identity) 3
      [false; false; true];
    mkCall MPOST some_request (signed_in bare_identity) 4 [];
    mkCall MPUT some_request Null 5 [];
    mkCall MGET some_request Null 6 [true] ].

(** ** Basic facts about traces, worlds and the monad *)

Lemma db_statements_app (a b : list Event) :
  db_statements (a ++ b) = db_statements a ++ db_statements b.
Proof. apply filter_app. Qed.

Lemma db_writes_app (a b : list Event) :
  db_writes (a ++ b) = db_writes a ++ db_writes b.
Proof. apply filter_app. Qed.

Lemma session_calls_app (a b : list Event) :
  session_calls (a ++ b) = session_calls a ++ session_calls b.
Proof. apply filter_app. Qed.

Lemma quiet_hd (l : list bool) : forallb negb l = true -> hd false l = false.
Proof.
  destruct l as [|b l]; simpl; [reflexivity|].
  destruct b; simpl; [discriminate | reflexivity].
Qed.

Lemma quiet_tl (l : list bool) :
  forallb negb l = true -> forallb negb (tl l) = true.
Proof.
  destruct l as [|b l]; simpl; [reflexivity|].
  intros H. apply andb_true_iff in H. apply H.
Qed.

Lemma driver_call_ok (w : World) :
  fault_free w = true ->
  driver_call w = (Ret tt, set_faults (tl (faults w)) w).
Proof.
  intros H. unfold driver_call. now rewrite (quiet_hd _ H).
Qed.

Lemma createConnection_ok (w : World) :
  fault_free w = true ->
  createConnection w
  = (Ret tt, log EvCreateConnection (set_faults (tl (faults w)) w)).
Proof.
  intros H. unfold createConnection, bind. now rewrite (driver_call_ok _ H).
Qed.

Lemma connection_end_ok (w : World) :
  connection_end w = (Ret tt, log EvEnd w).
Proof. reflexivity. Qed.

Lemma statement_ok (collate : string -> string -> bool)
    (q : Sql) (ps : list Param) (w : World) (rows tbl' : list Users.row) :
  fault_free w = true ->
  run_sql collate q ps (now w) (users w) = Some (rows, tbl') ->
  statement collate q ps w
  = (Ret rows,
     log (EvStatement q ps) (set_users tbl' (set_faults (tl (faults w)) w))).
Proof.
  intros H E. unfold statement, bind. rewrite (driver_call_ok _ H).
  simpl. now rewrite E.
Qed.

Lemma fault_free_log (ev : Event) (w : World) :
  fault_free (log ev w) = fault_free w.
Proof. reflexivity. Qed.

Lemma fault_free_set_users (u : list Users.row) (w : World) :
  fault_free (set_users u w) = fault_free w.
Proof. reflexivity. Qed.

Lemma fault_free_next (w : World) :
  fault_free w = true -> fault_free (set_faults (tl (faults w)) w) = true.
Proof. apply quiet_tl. Qed.

Lemma world_eq (a b : World) :
  users a = users b -> now a = now b -> session a = session b ->
  faults a = faults b -> trace a = trace b -> a = b.
Proof. destruct a, b; simpl; intros; subst; reflexivity. Qed.

(** Compares two worlds field by field, reading each field through the
    updates that built the world. *)
Ltac world_fields :=
  apply world_eq;
  cbn [users now session faults trace log set_users set_faults set_session];
  rewrite <- ?app_assoc; reflexivity.

(** Discharges [fault_free] of a world reached from a fault-free one. *)
Ltac quiet :=
  repeat (rewrite ?fault_free_log, ?fault_free_set_users;
          try apply fault_free_next);
  assumption.

(** ** Relations between the tables before and after a computation *)

Section Preservation.

Variable collate : string -> string -> bool.
Context {P : list Users.row -> list Users.row -> Prop} {HP : PreOrder P}.

Lemma preserves_ret {A : Type} (a : A) : preserves (on_tables P) (ret a).
Proof. intros w. unfold on_tables. simpl. reflexivity. Qed.

Lemma preserves_throw {A : Type} (e : Exn) :
  preserves (on_tables P) (@throw A e).
Proof. intros w. unfold on_tables. simpl. reflexivity. Qed.

Lemma preserves_bind {A B : Type} (m : M A) (k : A -> M B) :
  preserves (on_tables P) m ->
  (forall a, preserves (on_tables P) (k a)) ->
  preserves (on_tables P) (bind m k).
Proof.
  intros Hm Hk w. unfold bind. specialize (Hm w).
  destruct (m w) as [[a|e] w1]; simpl in *; [|exact Hm].
  unfold on_tables in *. etransitivity; [exact Hm | apply Hk].
Qed.

Lemma preserves_try_catch {A : Type} (m : M A) (h : Exn -> M A) :
  preserves (on_tables P) m ->
  (forall e, preserves (on_tables P) (h e)) ->
  preserves (on_tables P) (try_catch m h).
Proof.
  intros Hm Hh w. unfold try_catch. specialize (Hm w).
  destruct (m w) as [[a|e] w1]; simpl in *; [exact Hm|].
  unfold on_tables in *. etransitivity; [exact Hm | apply Hh].
Qed.

Lemma preserves_getServerSession : preserves (on_tables P) getServerSession.
Proof. intros w. unfold on_tables. simpl. reflexivity. Qed.

Lemma preserves_record (ev : Event) : preserves (on_tables P) (record ev).
Proof. intros w. unfold on_tables. simpl. reflexivity. Qed.

Lemma preserves_driver_call : preserves (on_tables P) driver_call.
Proof.
  intros w. unfold on_tables, driver_call.
  destruct (hd false (faults w)); simpl; reflexivity.
Qed.

Lemma preserves_createConnection : preserves (on_tables P) createConnection.
Proof.
  apply preserves_bind; [apply preserves_driver_call|].
  intros _. apply preserves_record.
Qed.

Lemma preserves_connection_end : preserves (on_tables P) connection_end.
Proof. apply preserves_record. Qed.

Lemma preserves_statement (q : Sql) (ps : list Param) :
  (forall t tbl rows tbl',
      run_sql collate q ps t tbl = Some (rows, tbl') -> P tbl tbl') ->
  preserves (on_tables P) (statement collate q ps).
Proof.
  intros Hrun. apply preserves_bind; [apply preserves_driver_call|].
  intros _ w. unfold on_tables.
  destruct (run_sql collate q ps (now w) (users w)) as [[rows tbl']|] eqn:E.
  - simpl. apply (Hrun _ _ _ _ E).
  - simpl. reflexivity.
Qed.

Lemma preserves_execute (q : Sql) (ps : list Param) :
  (forall t tbl rows tbl',
      run_sql collate q ps t tbl = Some (rows, tbl') -> P tbl tbl') ->
  preserves (on_tables P) (execute collate q ps).
Proof.
  intros Hrun. unfold execute.
  destruct (existsb is_undefined ps).
  - apply preserves_throw.
  - now apply preserves_statement.
Qed.

End Preservation.

(** Applies the rules above along the structure of a handler, leaving the
    statements to the caller. *)
Ltac preserve :=
  repeat first
    [ apply preserves_ret
    | apply preserves_throw
    | apply preserves_getServerSession
    | apply preserves_createConnection
    | apply preserves_connection_end
    | apply preserves_record
    | apply preserves_statement
    | apply preserves_execute
    | apply preserves_try_catch
    | apply preserves_bind
    | match goal with
      | |- PreOrder _ => typeclasses eauto
      | |- forall _, preserves _ _ => intro
      | |- forall t tbl rows tbl', run_sql _ _ _ _ _ = Some _ -> _ =>
          let H := fresh "Hrun" in intros ? ? ? ? H
      end ].

Lemma grows_by_email_refl (t : list Users.row) : grows_by_email t t.
Proof. exists []. now rewrite app_nil_r. Qed.

Lemma grows_by_email_trans (t1 t2 t3 : list Users.row) :
  grows_by_email t1 t2 -> grows_by_email t2 t3 -> grows_by_email t1 t3.
Proof.
  intros [x Hx] [y Hy]. exists (x ++ y).
  now rewrite Hy, Hx, app_assoc.
Qed.

#[export] Instance grows_by_email_preorder : PreOrder grows_by_email :=
  {| PreOrder_Reflexive := grows_by_email_refl;
     PreOrder_Transitive := grows_by_email_trans |}.

Lemma map_email_update (f : Users.row -> Users.row) (c : Users.row -> bool)
    (tbl : list Users.row) :
  (forall r, Users.email (f r) = Users.email r) ->
  map Users.email (map (fun r => if c r then f r else r) tbl)
  = map Users.email tbl.
Proof.
  intros Hf. rewrite map_map. apply map_ext.
  intros r. destruct (c r); [apply Hf | reflexivity].
Qed.

(** No statement of the route removes a row or changes an email. *)
Lemma run_sql_grows (collate : string -> string -> bool) (q : Sql)
    (ps : list Param) (t : Z) (tbl rows tbl' : list Users.row) :
  run_sql collate q ps t tbl = Some (rows, tbl') -> grows_by_email tbl tbl'.
Proof.
  intros H.
  destruct q; destruct ps as [|p1 [|p2 [|p3 [|p4 ps]]]];
    simpl in H; try discriminate; injection H as _ <-.
  - apply grows_by_email_refl.
  - eexists. apply map_app.
  - exists []. rewrite app_nil_r. now apply map_email_update.
  - exists []. rewrite app_nil_r. now apply map_email_update.
  - apply grows_by_email_refl.
Qed.

(** An UPDATE whose parameter is SQL NULL matches no row. *)
Lemma update_null_noop (collate : string -> string -> bool) (p : Param)
    (f : Users.row -> Users.row) (tbl : list Users.row) :
  to_sql p = None ->
  map (fun r => if sql_eq collate (Users.email r) p then f r else r) tbl = tbl.
Proof.
  intros Hp. rewrite <- (map_id tbl) at 2. apply map_ext.
  intros r. unfold sql_eq.
  destruct (Users.email r); destruct p; try reflexivity; discriminate.
Qed.

(** ** Runs of the handlers when the driver does not fail *)

Section Runs.

Variable collate : string -> string -> bool.

Lemma no_match_filter (p : Param) (tbl : list Users.row) :
  (forall r, In r tbl -> sql_eq collate (Users.email r) p = false) ->
  filter (fun r => sql_eq collate (Users.email r) p) tbl = [].
Proof.
  induction tbl as [|r tbl IH]; intros H; simpl; [reflexivity|].
  rewrite (H r (or_introl eq_refl)). apply IH.
  intros r' Hr'. apply H. now right.
Qed.

Lemma some_match_filter (p : Param) (tbl : list Users.row) (r : Users.row) :
  In r tbl -> sql_eq collate (Users.email r) p = true ->
  (Z.of_nat (List.length (filter (fun r => sql_eq collate (Users.email r) p) tbl)) =? 0)
  = false.
Proof.
  intros Hin Hm.
  assert (Hf : In r (filter (fun r => sql_eq collate (Users.email r) p) tbl))
    by (apply filter_In; now split).
  destruct (filter _ tbl) as [|x l]; [destruct Hf|].
  apply Z.eqb_neq. simpl List.length. lia.
Qed.

(** Registration of an email that matches no row. *)
Lemma POST_run_new (req : Request) (w : World) (e : string) :
  POST_email (session w) = Some e ->
  (forall r, In r (users w) -> sql_eq collate (Users.email r) (Val e) = false) ->
  is_undefined (session_user_name (session w)) = false ->
  is_undefined (session_user_image (session w)) = false ->
  fault_free w = true ->
  POST collate req w
  = (Ret (json_response 200 (JObject [("message", "Operation successful")])),
     {| users := users w ++ [new_user (session w) e (now w)];
        now := now w;
        session := session w;
        faults := tl (tl (tl (faults w)));
        trace := trace w ++
          [ EvGetServerSession;
            EvCreateConnection;
            EvStatement SelectUsersWhereEmail [Val e];
            EvStatement InsertUser
              [session_user_name (session w); Val e;
               session_user_image (session w)];
            EvConsole (LogText "User added with default tokens");
            EvEnd ] |}).
Proof.
  intros He Hnone Hn Hi Hq.
  unfold POST, try_catch, bind at 1, getServerSession. rewrite He.
  unfold bind at 1. rewrite createConnection_ok by quiet.
  unfold bind at 1, execute at 1. cbn [existsb is_undefined orb].
  erewrite statement_ok; [ | quiet | reflexivity ].
  cbn [users set_users log set_faults].
  rewrite (no_match_filter _ _ Hnone). cbn [List.length Z.of_nat Z.eqb].
  unfold bind at 1 2, execute. cbn [existsb]. rewrite Hn, Hi. cbn [orb is_undefined].
  erewrite statement_ok; [ | quiet | reflexivity ].
  unfold bind at 1, console_log, record.
  unfold bind. rewrite connection_end_ok.
  unfold ret. f_equal. world_fields.
Qed.

(** Registration of an email that matches at least one row. *)
Lemma POST_run_existing (req : Request) (w : World) (e : string)
    (r : Users.row) :
  POST_email (session w) = Some e ->
  In r (users w) -> sql_eq collate (Users.email r) (Val e) = true ->
  fault_free w = true ->
  POST collate req w
  = (Ret (json_response 200 (JObject [("message", "Operation successful")])),
     {| users := map (fun r => if sql_eq collate (Users.email r) (Val e)
                               then Users.add_tokens 5 r else r) (users w);
        now := now w;
        session := session w;
        faults := tl (tl (tl (faults w)));
        trace := trace w ++
          [ EvGetServerSession;
            EvCreateConnection;
            EvStatement SelectUsersWhereEmail [Val e];
            EvStatement (UpdateTokensPlus 5) [Val e];
            EvConsole (LogText "Tokens updated for existing user");
            EvEnd ] |}).
Proof.
  intros He Hin Hm Hq.
  unfold POST, try_catch, bind at 1, getServerSession. rewrite He.
  unfold bind at 1. rewrite createConnection_ok by quiet.
  unfold bind at 1, execute at 1. cbn [existsb is_undefined orb].
  erewrite statement_ok; [ | quiet | reflexivity ].
  cbn [users set_users log set_faults].
  rewrite (some_match_filter _ _ _ Hin Hm).
  unfold bind at 1 2, execute. cbn [existsb is_undefined orb].
  erewrite statement_ok; [ | quiet | reflexivity ].
  unfold bind at 1, console_log, record.
  unfold bind. rewrite connection_end_ok.
  unfold ret. f_equal. world_fields.
Qed.

(** A debit whose bind parameter is a string or [null]. *)
Lemma PUT_run (req : Request) (w : World) :
  is_undefined (PUT_email (session w)) = false ->
  fault_free w = true ->
  PUT collate req w
  = (Ret (json_response 200
            (JObject [("message", "1 token subtracted successfully")])),
     {| users := map (fun r => if sql_eq collate (Users.email r)
                                    (PUT_email (session w))
                               then Users.sub_tokens 1 r else r) (users w);
        now := now w;
        session := session w;
        faults := tl (tl (faults w));
        trace := trace w ++
          [ EvGetServerSession;
            EvConsole (LogSession (session w));
            EvCreateConnection;
            EvStatement (UpdateTokensMinus 1) [PUT_email (session w)];
            EvConsole (LogText "query executed");
            EvEnd ] |}).
Proof.
  intros Hu Hq.
  unfold PUT, try_catch, bind at 1, getServerSession.
  unfold bind at 1, console_log, record.
  unfold bind at 1. rewrite createConnection_ok by quiet.
  unfold bind at 1, execute. cbn [existsb log session]. rewrite Hu. cbn [orb].
  erewrite statement_ok; [ | quiet | reflexivity ].
  unfold bind at 1. unfold bind. rewrite connection_end_ok.
  unfold ret. f_equal. world_fields.
Qed.

(** A listing. *)
Lemma GET_run (req : Request) (w : World) :
  fault_free w = true ->
  GET collate req w
  = (Ret (json_response 200 (JRows (users w))),
     {| users := users w;
        now := now w;
        session := session w;
        faults := tl (tl (faults w));
        trace := trace w ++
          [ EvCreateConnection; EvStatement SelectUsers []; EvEnd ] |}).
Proof.
  intros Hq.
  unfold GET, try_catch, bind at 1. rewrite createConnection_ok by quiet.
  unfold bind at 1, query.
  erewrite statement_ok; [ | quiet | reflexivity ].
  unfold bind. rewrite connection_end_ok.
  unfold ret. f_equal. world_fields.
Qed.

(** What a handler does once the session has been read. *)
Lemma PUT_after_session (req : Request) (w : World) :
  PUT collate req w
  = try_catch
      (console_log (LogSession (session w)) ;;;
       createConnection ;;;
       execute collate (UpdateTokensMinus 1) [PUT_email (session w)] ;;;
       console_log (LogText "query executed") ;;;
       connection_end ;;;
       ret (json_response 200
              (JObject [("message", "1 token subtracted successfully")])))
      (fun error =>
         ret (json_response 500 (JObject [("error", "Failed to subtract tokens")])))
      (log EvGetServerSession w).
Proof. reflexivity. Qed.

(** A debit whose bind parameter is [undefined]: the driver rejects it. *)
Lemma PUT_run_undefined (req : Request) (w : World) :
  PUT_email (session w) = Undefined ->
  fst (PUT collate req w)
  = Ret (json_response 500 (JObject [("error", "Failed to subtract tokens")])).
Proof.
  intros Hu. rewrite PUT_after_session.
  unfold try_catch, bind, console_log, record, execute.
  rewrite Hu. cbn [existsb is_undefined orb].
  destruct (createConnection _) as [[u|e] w1]; reflexivity.
Qed.

(** A debit whose bind parameter is not a string leaves the table as it
    is, whatever the driver does. *)
Lemma PUT_same_table (req : Request) (w : World) :
  to_sql (PUT_email (session w)) = None ->
  users (snd (PUT collate req w)) = users w.
Proof.
  intros Hp. rewrite PUT_after_session.
  change (users w) with (users (log EvGetServerSession w)).
  symmetry. apply (preserves_try_catch (P := eq)); preserve.
  simpl in Hrun. injection Hrun as _ <-.
  symmetry. now apply update_null_noop.
Qed.

Lemma POST_keeps_accounts (req : Request) :
  preserves keeps_accounts (POST collate req).
Proof.
  unfold POST, keeps_accounts. preserve.
  destruct (POST_email a) as [e|]; preserve.
  - eapply run_sql_grows; eauto.
  - match goal with
    | |- context [if ?c then _ else _] => destruct c
    end; preserve; eapply run_sql_grows; eauto.
Qed.

Lemma GET_keeps_accounts (req : Request) :
  preserves keeps_accounts (GET collate req).
Proof.
  unfold GET, keeps_accounts. preserve. eapply run_sql_grows; eauto.
Qed.

Lemma PUT_keeps_accounts (req : Request) :
  preserves keeps_accounts (PUT collate req).
Proof.
  unfold PUT, keeps_accounts. preserve. eapply run_sql_grows; eauto.
Qed.

Lemma keeps_accounts_In (w w' : World) (e : string) :
  keeps_accounts w w' ->
  (exists r, In r (users w) /\ Users.email r = Some e) ->
  exists r', In r' (users w') /\ Users.email r' = Some e.
Proof.
  intros [extra Hx] [r [Hin He]].
  assert (H : In (Some e) (map Users.email (users w')))
    by (rewrite Hx; apply in_or_app; left; rewrite <- He; now apply in_map).
  apply in_map_iff in H. destruct H as [r' [H1 H2]]. now exists r'.
Qed.

Lemma Forall2_map_self {A : Type} (R : A -> A -> Prop) (f : A -> A)
    (l : list A) :
  (forall x, In x l -> R x (f x)) -> Forall2 R l (map f l).
Proof.
  induction l as [|x l IH]; intros H; simpl; constructor.
  - apply H. now left.
  - apply IH. intros y Hy. apply H. now right.
Qed.

End Runs.

(** * Registration without an email *)

(** C3. When the session yields no usable email ([sesh], [sesh.user] or
    [sesh.user.email] is falsy), POST answers 400 with the body
    [{error: 'No email provided'}]; the table is unchanged and no statement
    is sent to the database. *)
Theorem POST_without_email (collate : string -> string -> bool)
    (req : Request) (w : World) :
  POST_email (session w) = None ->
  fst (POST collate req w)
  = Ret {| status := 400;
           headers := [("Content-Type", "application/json")];
           body := JObject [("error", "No email provided")] |}
  /\ users (snd (POST collate req w)) = users w
  /\ db_statements (trace (snd (POST collate req w))) = db_statements (trace w).
Proof.
  intros H. unfold POST, try_catch, bind, getServerSession.
  rewrite H. simpl. rewrite db_statements_app. simpl.
  now rewrite app_nil_r.
Qed.

Lemma POST_without_email_witness :
  let w := world_of [account "a@x.com" 5] Null in
  POST_email (session w) = None
  /\ fst (POST binary some_request w)
     = Ret {| status := 400;
              headers := [("Content-Type", "application/json")];
              body := JObject [("error", "No email provided")] |}
  /\ users (snd (POST binary some_request w)) = users w
  /\ db_statements (trace (snd (POST binary some_request w)))
     = db_statements (trace w).
Proof.
  intros w. split; [reflexivity|].
  apply (POST_without_email binary some_request w). reflexivity.
Defined.

(** * Registration of a new email *)

(** When the session carries a usable email that matches no row, and its
    [name] and [image] are strings or [null], POST adds exactly the row
    [new_user] at the end of the table (balance 5, [signup_date] the
    server's clock), answers 200, and the INSERT is its only write. *)
Lemma POST_registers_new_email (collate : string -> string -> bool)
    (req : Request) (w : World) (e : string) :
  POST_email (session w) = Some e ->
  (forall r, In r (users w) -> sql_eq collate (Users.email r) (Val e) = false) ->
  is_undefined (session_user_name (session w)) = false ->
  is_undefined (session_user_image (session w)) = false ->
  fault_free w = true ->
  fst (POST collate req w)
  = Ret (json_response 200 (JObject [("message", "Operation successful")]))
  /\ users (snd (POST collate req w))
     = users w ++ [ {| Users.name := to_sql (session_user_name (session w));
                       Users.email := Some e;
                       Users.google_image_url :=
                         to_sql (session_user_image (session w));
                       Users.token_remaining := 5;
                       Users.signup_date := now w |} ]
  /\ db_writes (trace (snd (POST collate req w)))
     = db_writes (trace w)
       ++ [ EvStatement InsertUser
              [session_user_name (session w); Val e;
               session_user_image (session w)] ].
Proof.
  intros He Hnone Hn Hi Hq.
  rewrite (POST_run_new collate req w e He Hnone Hn Hi Hq).
  cbn [fst snd users trace]. repeat split.
  now rewrite db_writes_app.
Qed.

Example POST_registers_new_email_example :
  users (snd (POST binary some_request
                (world_of [account "b@x.com" 2] (signed_in named_identity))))
  = [ account "b@x.com" 2;
      {| Users.name := Some "Ada";
         Users.email := Some "a@x.com";
         Users.google_image_url := None;
         Users.token_remaining := 5;
         Users.signup_date := 1700000000 |} ].
Proof.
  refine (proj1 (proj2 (POST_registers_new_email binary some_request
                          (world_of [account "b@x.com" 2]
                             (signed_in named_identity))
                          "a@x.com" _ _ _ _ _))); try reflexivity.
  intros r [<-|[]]. reflexivity.
Qed.

(** C1. The session [{ user: { email: 'a@x.com' } }] resolves to an email
    that matches no row of the empty table, yet POST does not insert a row:
    [sesh?.user?.name] is [undefined], the driver rejects the INSERT's bind
    parameters, and the handler answers 500 with the table still empty and
    no write made. *)
Theorem POST_new_email_without_name_fails :
  let w := world_of [] (signed_in bare_identity) in
  POST_email (session w) = Some "a@x.com"
  /\ fault_free w = true
  /\ fst (POST binary some_request w)
     = Ret {| status := 500;
              headers := [("Content-Type", "application/json")];
              body := JObject [("error", "Failed to execute operation")] |}
  /\ users (snd (POST binary some_request w)) = []
  /\ db_writes (trace (snd (POST binary some_request w))) = [].
Proof. repeat split. Qed.

(** * Registration of an existing email *)

(** C2. When the session carries a usable email that matches a row, POST
    answers 200, adds exactly 5 to [token_remaining] of every matching row,
    leaves the other columns and the other rows as they are, adds no row,
    and the UPDATE is its only write. *)
Theorem POST_tops_up_existing_email (collate : string -> string -> bool)
    (req : Request) (w : World) (e : string) :
  POST_email (session w) = Some e ->
  (exists r, In r (users w) /\ sql_eq collate (Users.email r) (Val e) = true) ->
  fault_free w = true ->
  fst (POST collate req w)
  = Ret (json_response 200 (JObject [("message", "Operation successful")]))
  /\ Forall2
       (fun r r' =>
          if sql_eq collate (Users.email r) (Val e)
          then same_account r r'
               /\ Users.token_remaining r' = Users.token_remaining r + 5
          else r' = r)
       (users w) (users (snd (POST collate req w)))
  /\ List.length (users (snd (POST collate req w))) = List.length (users w)
  /\ db_writes (trace (snd (POST collate req w)))
     = db_writes (trace w) ++ [EvStatement (UpdateTokensPlus 5) [Val e]].
Proof.
  intros He [r [Hin Hm]] Hq.
  rewrite (POST_run_existing collate req w e r He Hin Hm Hq).
  cbn [fst snd users trace]. repeat split.
  - apply Forall2_map_self. intros x _.
    destruct (sql_eq collate (Users.email x) (Val e)); [|reflexivity].
    repeat split.
  - apply length_map.
  - now rewrite db_writes_app.
Qed.

Lemma POST_tops_up_existing_email_witness :
  let w := world_of [account "b@x.com" 2; account "a@x.com" 5]
             (signed_in named_identity) in
  (POST_email (session w) = Some "a@x.com"
   /\ fault_free w = true)
  /\ fst (POST binary some_request w)
     = Ret (json_response 200 (JObject [("message", "Operation successful")]))
  /\ Forall2
       (fun r r' =>
          if sql_eq binary (Users.email r) (Val "a@x.com")
          then same_account r r'
               /\ Users.token_remaining r' = Users.token_remaining r + 5
          else r' = r)
       (users w) (users (snd (POST binary some_request w)))
  /\ List.length (users (snd (POST binary some_request w)))
     = List.length (users w)
  /\ db_writes (trace (snd (POST binary some_request w)))
     = db_writes (trace w)
       ++ [EvStatement (UpdateTokensPlus 5) [Val "a@x.com"]].
Proof.
  intros w. split; [split; reflexivity|].
  apply (POST_tops_up_existing_email binary some_request w "a@x.com").
  - reflexivity.
  - exists (account "a@x.com" 5). split; [right; left|]; reflexivity.
  - reflexivity.
Defined.

(** * Debit *)

(** C4. When the session's user has a string email, PUT answers 200 and
    subtracts exactly 1 from [token_remaining] of every row whose email
    matches, leaving its other columns and every other row as they are.
    Nothing looks at the balance first: a matching row at 0 ends at -1. *)
Theorem PUT_debits_matching_rows (collate : string -> string -> bool)
    (req : Request) (w : World) (e : string) :
  PUT_email (session w) = Val e ->
  fault_free w = true ->
  fst (PUT collate req w)
  = Ret {| status := 200;
           headers := [("Content-Type", "application/json")];
           body := JObject [("message", "1 token subtracted successfully")] |}
  /\ Forall2
       (fun r r' =>
          if sql_eq collate (Users.email r) (Val e)
          then same_account r r'
               /\ Users.token_remaining r' = Users.token_remaining r - 1
          else r' = r)
       (users w) (users (snd (PUT collate req w)))
  /\ (forall r,
        In r (users w) ->
        sql_eq collate (Users.email r) (Val e) = true ->
        Users.token_remaining r = 0 ->
        exists r', In r' (users (snd (PUT collate req w)))
                   /\ same_account r r'
                   /\ Users.token_remaining r' = -1).
Proof.
  intros He Hq.
  assert (Hu : is_undefined (PUT_email (session w)) = false)
    by (rewrite He; reflexivity).
  rewrite (PUT_run collate req w Hu Hq), He.
  cbn [fst snd users]. repeat split.
  - apply Forall2_map_self. intros x _.
    destruct (sql_eq collate (Users.email x) (Val e)); [|reflexivity].
    repeat split.
  - intros r Hin Hm H0. exists (Users.sub_tokens 1 r). split.
    + apply in_map_iff. exists r. now rewrite Hm.
    + repeat split. simpl. now rewrite H0.
Qed.

Lemma PUT_debits_matching_rows_witness :
  let w := world_of [account "b@x.com" 2; account "a@x.com" 0]
             (signed_in named_identity) in
  (PUT_email (session w) = Val "a@x.com" /\ fault_free w = true)
  /\ users (snd (PUT binary some_request w))
     = [account "b@x.com" 2; account "a@x.com" (-1)]
  /\ exists r', In r' (users (snd (PUT binary some_request w)))
                /\ same_account (account "a@x.com" 0) r'
                /\ Users.token_remaining r' = -1.
Proof.
  intros w. split; [split; reflexivity|]. split; [reflexivity|].
  refine (proj2 (proj2 (PUT_debits_matching_rows binary some_request w
                          "a@x.com" _ _)) (account "a@x.com" 0) _ _ _).
  - reflexivity.
  - reflexivity.
  - right; left; reflexivity.
  - reflexivity.
  - reflexivity.
Defined.

(** * Debit without an email *)

(** When PUT's [email] is [null] (no session, no [user], or a [null]
    email) the table is left exactly as it was, whatever the driver does;
    if the driver does not fail, the UPDATE is sent with a NULL parameter
    and PUT answers 200 with
    [{message: '1 token subtracted successfully'}]. *)
Lemma PUT_with_null_email (collate : string -> string -> bool)
    (req : Request) (w : World) :
  PUT_email (session w) = Null ->
  users (snd (PUT collate req w)) = users w
  /\ (fault_free w = true ->
      fst (PUT collate req w)
      = Ret {| status := 200;
               headers := [("Content-Type", "application/json")];
               body := JObject [("message", "1 token subtracted successfully")] |}
      /\ db_writes (trace (snd (PUT collate req w)))
         = db_writes (trace w) ++ [EvStatement (UpdateTokensMinus 1) [Null]]).
Proof.
  intros Hn. split.
  - apply PUT_same_table. now rewrite Hn.
  - intros Hq.
    assert (Hu : is_undefined (PUT_email (session w)) = false)
      by (rewrite Hn; reflexivity).
    rewrite (PUT_run collate req w Hu Hq), Hn.
    cbn [fst snd trace]. split; [reflexivity|].
    now rewrite db_writes_app.
Qed.

Example PUT_with_null_email_example :
  let w := world_of [account "a@x.com" 5] Null in
  users (snd (PUT binary some_request w)) = users w
  /\ fst (PUT binary some_request w)
     = Ret {| status := 200;
              headers := [("Content-Type", "application/json")];
              body := JObject [("message", "1 token subtracted successfully")] |}.
Proof.
  intros w.
  destruct (PUT_with_null_email binary some_request w eq_refl) as [Hu Hn].
  split; [exact Hu|]. exact (proj1 (Hn eq_refl)).
Qed.

(** C5. The session [{ user: { name: 'Bob' } }] yields no email and the
    driver does not fail.  PUT leaves the table as it was, yet it answers
    500 with [{error: 'Failed to subtract tokens'}] and not 200:
    [sesh.user.email] is [undefined] rather than the [null] that [email]
    defaults to, and the driver rejects it as a bind parameter. *)
Lemma PUT_undefined_email_answers_500 :
  let w := world_of [account "a@x.com" 5] (signed_in identity_without_email) in
  to_sql (PUT_email (session w)) = None
  /\ POST_email (session w) = None
  /\ fault_free w = true
  /\ users (snd (PUT binary some_request w)) = users w
  /\ fst (PUT binary some_request w)
     = Ret {| status := 500;
              headers := [("Content-Type", "application/json")];
              body := JObject [("error", "Failed to subtract tokens")] |}
  /\ fst (PUT binary some_request w)
     <> Ret {| status := 200;
               headers := [("Content-Type", "application/json")];
               body := JObject [("message", "1 token subtracted successfully")] |}.
Proof. repeat split. discriminate. Qed.

(** * Listing *)

(** C6. Whatever the table holds, GET (with a driver that does not fail)
    answers 200 with the rows of the table, all of them, in order and as
    they are, and leaves the table as it was. *)
Theorem GET_lists_every_row (collate : string -> string -> bool)
    (req : Request) (w : World) :
  fault_free w = true ->
  fst (GET collate req w)
  = Ret {| status := 200;
           headers := [("Content-Type", "application/json")];
           body := JRows (users w) |}
  /\ users (snd (GET collate req w)) = users w.
Proof.
  intros Hq. rewrite (GET_run collate req w Hq). split; reflexivity.
Qed.

Lemma GET_lists_every_row_witness :
  let w := world_of [account "b@x.com" 2; account "a@x.com" 5] Null in
  fault_free w = true
  /\ fst (GET binary some_request w)
     = Ret {| status := 200;
              headers := [("Content-Type", "application/json")];
              body := JRows [account "b@x.com" 2; account "a@x.com" 5] |}
  /\ users (snd (GET binary some_request w)) = users w.
Proof.
  intros w. split; [reflexivity|].
  apply (GET_lists_every_row binary some_request w). reflexivity.
Defined.

(** C9. GET never calls [getServerSession], and its response does not
    depend on the session or on the request: against the same table, clock
    and driver, any two calls answer alike, and with a driver that does not
    fail the answer is the full table. *)
Theorem GET_ignores_session (collate : string -> string -> bool)
    (req1 req2 : Request) (s1 s2 : JsOpt NextAuth.Session) (w : World) :
  session_calls (trace (snd (GET collate req1 w))) = session_calls (trace w)
  /\ fst (GET collate req1 (set_session s1 w))
     = fst (GET collate req2 (set_session s2 w))
  /\ (fault_free w = true ->
      fst (GET collate req1 (set_session s1 w))
      = Ret (json_response 200 (JRows (users w)))
      /\ fst (GET collate req2 (set_session s2 w))
         = Ret (json_response 200 (JRows (users w)))).
Proof.
  split; [|split].
  - destruct w as [u t s f tr].
    destruct f as [|[] [|[] [|[] f]]]; cbn;
      rewrite ?session_calls_app; cbn; now rewrite ?app_nil_r.
  - destruct w as [u t s f tr].
    destruct f as [|[] [|[] [|[] f]]]; reflexivity.
  - intros Hq. split; now rewrite GET_run.
Qed.

Lemma GET_ignores_session_witness :
  let w := world_of [account "a@x.com" 5] Null in
  fault_free w = true
  /\ fst (GET binary some_request (set_session (signed_in named_identity) w))
     = Ret (json_response 200 (JRows [account "a@x.com" 5]))
  /\ fst (GET binary (with_body "x" some_request) (set_session Null w))
     = Ret (json_response 200 (JRows [account "a@x.com" 5])).
Proof.
  intros w. split; [reflexivity|].
  apply (proj2 (proj2 (GET_ignores_session binary some_request
                         (with_body "x" some_request)
                         (signed_in named_identity) Null w))).
  reflexivity.
Defined.

(** * Accounts are never removed *)

(** C8. Whatever the session, the request and the driver's failures, an
    email that has a row before POST, GET or PUT runs has a row after it. *)
Theorem no_operation_deletes_an_account (collate : string -> string -> bool)
    (req : Request) (w : World) (e : string) :
  (exists r, In r (users w) /\ Users.email r = Some e) ->
  (exists r, In r (users (snd (POST collate req w))) /\ Users.email r = Some e)
  /\ (exists r, In r (users (snd (GET collate req w))) /\ Users.email r = Some e)
  /\ (exists r, In r (users (snd (PUT collate req w))) /\ Users.email r = Some e).
Proof.
  intros H. repeat split.
  - exact (keeps_accounts_In _ _ e (POST_keeps_accounts collate req w) H).
  - exact (keeps_accounts_In _ _ e (GET_keeps_accounts collate req w) H).
  - exact (keeps_accounts_In _ _ e (PUT_keeps_accounts collate req w) H).
Qed.

Lemma no_operation_deletes_an_account_witness :
  let w := {| users := [account "b@x.com" 2; account "a@x.com" 0];
              now := 7;
              session := signed_in named_identity;
              faults := [false; false; true];
              trace := [] |} in
  (exists r, In r (users w) /\ Users.email r = Some "a@x.com")
  /\ (exists r, In r (users (snd (POST binary some_request w)))
                /\ Users.email r = Some "a@x.com")
  /\ (exists r, In r (users (snd (GET binary some_request w)))
                /\ Users.email r = Some "a@x.com")
  /\ (exists r, In r (users (snd (PUT binary some_request w)))
                /\ Users.email r = Some "a@x.com").
Proof.
  intros w.
  assert (H : exists r, In r (users w) /\ Users.email r = Some "a@x.com")
    by (exists (account "a@x.com" 0); split; [right; left|]; reflexivity).
  split; [exact H|].
  exact (no_operation_deletes_an_account binary some_request w "a@x.com" H).
Defined.

(** * The request body *)

(** C10. No handler reads the request: with the session, the table, the
    clock and the driver fixed, two requests that differ in their body get
    the same response and leave the same world behind. *)
Theorem handlers_ignore_the_body (collate : string -> string -> bool)
    (req : Request) (b1 b2 : string) (w : World) :
  POST collate (with_body b1 req) w = POST collate (with_body b2 req) w
  /\ GET collate (with_body b1 req) w = GET collate (with_body b2 req) w
  /\ PUT collate (with_body b1 req) w = PUT collate (with_body b2 req) w.
Proof. repeat split. Qed.

(** * The scenario of the specification *)

(** With an identity whose email is [a@x.com] and whose [name] and [image]
    are strings or [null], starting from an empty table: POST creates the
    row with balance 5, a second POST makes it 10, PUT makes it 9, and GET
    returns that one row with balance 9. *)
Lemma scenario_with_complete_identity (collate : string -> string -> bool)
    (u : NextAuth.User) (t : Z) :
  collate "a@x.com" "a@x.com" = true ->
  NextAuth.email u = Val "a@x.com" ->
  is_undefined (NextAuth.name u) = false ->
  is_undefined (NextAuth.image u) = false ->
  let row n := {| Users.name := to_sql (NextAuth.name u);
                  Users.email := Some "a@x.com";
                  Users.google_image_url := to_sql (NextAuth.image u);
                  Users.token_remaining := n;
                  Users.signup_date := t |} in
  let w0 := {| users := []; now := t; session := signed_in u;
               faults := []; trace := [] |} in
  let w1 := snd (POST collate some_request w0) in
  let w2 := snd (POST collate some_request w1) in
  let w3 := snd (PUT collate some_request w2) in
  users w1 = [row 5]
  /\ users w2 = [row 10]
  /\ users w3 = [row 9]
  /\ fst (GET collate some_request w3)
     = Ret (json_response 200 (JRows [row 9])).
Proof.
  intros Hc He Hn Hi row w0.
  assert (Hp : PUT_email (signed_in u) = Val "a@x.com") by exact He.
  assert (H0 : POST_email (signed_in u) = Some "a@x.com")
    by (unfold POST_email, signed_in; cbn [NextAuth.user]; now rewrite He).
  assert (Hrow : forall n,
             sql_eq collate (Users.email (row n)) (Val "a@x.com") = true)
    by (intros n; exact Hc).
  intros w1 w2 w3. subst w1 w2 w3.
  (* first POST *)
  rewrite (POST_run_new collate some_request w0 "a@x.com" H0
             (fun r (F : In r []) => match F with end) Hn Hi eq_refl).
  cbn [snd]. change (users w0 ++ [new_user (session w0) "a@x.com" (now w0)])
    with [row 5].
  (* second POST *)
  erewrite (POST_run_existing collate some_request _ "a@x.com" (row 5));
    [ | exact H0 | left; reflexivity | apply Hrow | reflexivity ].
  cbn [snd users map]. rewrite Hrow.
  change (Users.add_tokens 5 (row 5)) with (row 10).
  (* PUT *)
  assert (Hs : session w0 = signed_in u) by reflexivity.
  rewrite PUT_run; [ | cbn [session]; now rewrite Hs, Hp | reflexivity ].
  cbn [snd users session map]. rewrite Hs, Hp, Hrow.
  change (Users.sub_tokens 1 (row 10)) with (row 9).
  (* GET *)
  rewrite GET_run by reflexivity.
  repeat split.
Qed.

Example scenario_with_named_identity :
  let w1 := snd (POST binary some_request
                   (world_of [] (signed_in named_identity))) in
  let w2 := snd (POST binary some_request w1) in
  let w3 := snd (PUT binary some_request w2) in
  map Users.token_remaining (users w1) = [5]
  /\ map Users.token_remaining (users w2) = [10]
  /\ map Users.token_remaining (users w3) = [9]
  /\ exists r, fst (GET binary some_request w3)
               = Ret (json_response 200 (JRows [r]))
               /\ Users.email r = Some "a@x.com"
               /\ Users.token_remaining r = 9.
Proof.
  destruct (scenario_with_complete_identity binary named_identity 1700000000
              eq_refl eq_refl eq_refl eq_refl) as [H1 [H2 [H3 H4]]].
  unfold world_of. cbv zeta. rewrite H1, H2, H3. repeat split.
  eexists. split; [exact H4|]. split; reflexivity.
Qed.

(** C7. The scenario as the specification gives it, with the identity
    [{ email: 'a@x.com' }]: the first POST answers 500 and creates no row,
    so do the second POST and the PUT leave the table empty, and GET
    returns no row at all. *)
Theorem scenario_with_bare_identity :
  let w0 := world_of [] (signed_in bare_identity) in
  let w1 := snd (POST binary some_request w0) in
  let w2 := snd (POST binary some_request w1) in
  let w3 := snd (PUT binary some_request w2) in
  fst (POST binary some_request w0)
  = Ret (json_response 500 (JObject [("error", "Failed to execute operation")]))
  /\ users w1 = []
  /\ fst (POST binary some_request w1)
     = Ret (json_response 500 (JObject [("error", "Failed to execute operation")]))
  /\ users w2 = []
  /\ users w3 = []
  /\ fst (GET binary some_request w3) = Ret (json_response 200 (JRows [])).
Proof. repeat split. Qed.

(** * Every run of the handlers, failures included *)

Section EveryRun.

Variable collate : string -> string -> bool.

Lemma GET_response (req : Request) (w : World) :
  fst (GET collate req w)
  = Ret (if calls_ok 2 w then json_response 200 (JRows (users w))
         else GET_failed).
Proof.
  destruct w as [u t s f tr].
  destruct f as [|[] [|[] [|[] f]]]; reflexivity.
Qed.

Lemma GET_table (req : Request) (w : World) :
  users (snd (GET collate req w)) = users w.
Proof.
  destruct w as [u t s f tr].
  destruct f as [|[] [|[] [|[] f]]]; reflexivity.
Qed.

(** GET answers with the whole table exactly when its two fallible driver
    calls (connect, query) succeed, and with its 500 otherwise; on no path
    does it change the table or send a writing statement. *)
Theorem GET_every_run (req : Request) (w : World) :
  fst (GET collate req w)
  = Ret (if calls_ok 2 w then json_response 200 (JRows (users w))
         else GET_failed)
  /\ users (snd (GET collate req w)) = users w
  /\ db_writes (trace (snd (GET collate req w))) = db_writes (trace w).
Proof.
  split; [apply GET_response|]. split; [apply GET_table|].
  destruct w as [u t s f tr].
  destruct f as [|[] [|[] [|[] f]]]; cbn;
    rewrite ?db_writes_app; cbn; now rewrite ?app_nil_r.
Qed.

Lemma PUT_response (req : Request) (w : World) :
  fst (PUT collate req w)
  = Ret (if negb (is_undefined (PUT_email (session w))) && calls_ok 2 w
         then PUT_ok else PUT_failed).
Proof.
  destruct w as [u t s f tr].
  destruct s as [| |[[| |[n [| |e] i]]]];
    destruct f as [|[] [|[] [|[] f]]]; reflexivity.
Qed.

Lemma PUT_table (req : Request) (w : World) :
  users (snd (PUT collate req w))
  = (if negb (is_undefined (PUT_email (session w))) && calls_ok 2 w
     then debit collate (PUT_email (session w)) (users w)
     else users w).
Proof.
  destruct w as [u t s f tr].
  destruct s as [| |[[| |[n [| |e] i]]]];
    destruct f as [|[] [|[] [|[] f]]]; reflexivity.
Qed.


Lemma select_empty (e : string) (tbl : list Users.row) :
  (Z.of_nat
     (List.length
        (filter (fun r => sql_eq collate (Users.email r) (Val e)) tbl)) =? 0)
  = negb (has_match collate e tbl).
Proof.
  unfold has_match. induction tbl as [|r tbl IH]; [reflexivity|].
  simpl filter. simpl existsb.
  destruct (sql_eq collate (Users.email r) (Val e)); [reflexivity|exact IH].
Qed.

(** Runs POST on each shape of session, driver outcomes and SELECT
    result. *)
Ltac post_cases u f n c e i :=
  unfold POST, createConnection, connection_end, execute, statement,
    console_log, console_error, record, driver_call, getServerSession,
    try_catch, bind, ret, throw;
  destruct f as [|[] [|[] [|[] [|[] f]]]];
    cbn -[filter has_match Z.of_nat Z.eqb List.length top_up new_user];
    rewrite ?select_empty;
    destruct (has_match collate (String c e) u);
    destruct n, i.

Lemma POST_response (req : Request) (w : World) :
  fst (POST collate req w)
  = Ret (match POST_email (session w) with
         | None => POST_no_email
         | Some e =>
             if calls_ok 3 w
                && (has_match collate e (users w)
                    || (negb (is_undefined (session_user_name (session w)))
                        && negb (is_undefined (session_user_image (session w)))))
             then POST_ok else POST_failed
         end).
Proof.
  destruct w as [u t s f tr].
  destruct s as [| |[[| |[n [| |[|c e]] i]]]]; try reflexivity.
  post_cases u f n c e i; reflexivity.
Qed.

Lemma POST_table (req : Request) (w : World) :
  users (snd (POST collate req w))
  = match POST_email (session w) with
    | None => users w
    | Some e =>
        if calls_ok 3 w
        then if has_match collate e (users w)
             then top_up collate e (users w)
             else if negb (is_undefined (session_user_name (session w)))
                     && negb (is_undefined (session_user_image (session w)))
                  then users w ++ [new_user (session w) e (now w)]
                  else users w
        else users w
    end.
Proof.
  destruct w as [u t s f tr].
  destruct s as [| |[[| |[n [| |[|c e]] i]]]]; try reflexivity.
  post_cases u f n c e i; reflexivity.
Qed.


(** Works out the events a run appended to the trace. *)
Ltac new_events :=
  eexists; split;
  [ cbn -[app]; rewrite <- ?app_assoc; cbn [app];
    first [ reflexivity | symmetry; apply app_nil_r ]
  | repeat split ].

(** GET opens a connection whenever connect succeeds and closes it only
    on the path that answers 200: after a failed query the connection is
    left open.  It never writes to the console, neither a message nor the
    caught exception. *)
Theorem GET_connection (req : Request) (w : World) :
  exists evs,
    trace (snd (GET collate req w)) = trace w ++ evs
    /\ filter is_open evs
       = (if calls_ok 1 w then [EvCreateConnection] else [])
    /\ filter is_end evs
       = (if answered (fst (GET collate req w)) 200 then [EvEnd] else [])
    /\ filter is_console evs = [].
Proof.
  destruct w as [u t s f tr].
  destruct f as [|[] [|[] [|[] f]]]; new_events.
Qed.

(** PUT opens a connection whenever connect succeeds and closes it only on
    the path that answers 200; in particular an [undefined] email leaves
    the connection open although the driver never failed.  The caught
    exception is not logged. *)
Theorem PUT_connection (req : Request) (w : World) :
  exists evs,
    trace (snd (PUT collate req w)) = trace w ++ evs
    /\ filter is_open evs
       = (if calls_ok 1 w then [EvCreateConnection] else [])
    /\ filter is_end evs
       = (if answered (fst (PUT collate req w)) 200 then [EvEnd] else [])
    /\ filter is_error_log evs = [].
Proof.
  destruct w as [u t s f tr].
  destruct s as [| |[[| |[n [| |e] i]]]];
    destruct f as [|[] [|[] [|[] f]]]; new_events.
Qed.

(** POST opens no connection without an email; with one it opens a
    connection whenever connect succeeds and closes it only on the path
    that answers 200.  It logs the caught exception exactly when it
    answers 500. *)
Theorem POST_connection (req : Request) (w : World) :
  exists evs,
    trace (snd (POST collate req w)) = trace w ++ evs
    /\ filter is_open evs
       = (match POST_email (session w) with
          | None => []
          | Some _ => if calls_ok 1 w then [EvCreateConnection] else []
          end)
    /\ filter is_end evs
       = (if answered (fst (POST collate req w)) 200 then [EvEnd] else [])
    /\ List.length (filter is_error_log evs)
       = (if answered (fst (POST collate req w)) 500 then 1%nat else 0%nat).
Proof.
  destruct w as [u t s f tr].
  destruct s as [| |[[| |[n [| |[|c e]] i]]]]; try new_events.
  unfold POST, createConnection, connection_end, execute, statement,
    console_log, console_error, record, driver_call, getServerSession,
    try_catch, bind, ret, throw.
  destruct f as [|[] [|[] [|[] [|[] f]]]];
    cbn -[filter has_match Z.of_nat Z.eqb List.length];
    rewrite ?select_empty;
    destruct (has_match collate (String c e) u);
    destruct n, i; new_events.
Qed.

Lemma debit_no_match (e : string) (tbl : list Users.row) :
  has_match collate e tbl = false -> debit collate (Val e) tbl = tbl.
Proof.
  unfold has_match, debit. induction tbl as [|r tbl IH]; [reflexivity|].
  simpl. destruct (sql_eq collate (Users.email r) (Val e)); [discriminate|].
  intros H. now rewrite IH.
Qed.

(** A debit for an email that no row matches answers 200 with
    [1 token subtracted successfully] and changes nothing. *)
Theorem PUT_unknown_email (req : Request) (w : World) (e : string) :
  PUT_email (session w) = Val e ->
  has_match collate e (users w) = false ->
  calls_ok 2 w = true ->
  fst (PUT collate req w) = Ret PUT_ok
  /\ users (snd (PUT collate req w)) = users w.
Proof.
  intros He Hm H2.
  pose proof (PUT_response req w) as Hr.
  pose proof (PUT_table req w) as Hu.
  rewrite Hr, Hu, He, H2. split; [reflexivity|].
  now apply debit_no_match.
Qed.

(** An empty-string email is no email for POST, which answers 400 and
    touches nothing, but it is one for PUT, which sends it as the
    parameter of its UPDATE and debits the rows it matches. *)
Theorem empty_email_POST_and_PUT (req : Request) (w : World)
    (u : NextAuth.User) :
  session w = signed_in u ->
  NextAuth.email u = Val "" ->
  calls_ok 2 w = true ->
  fst (POST collate req w) = Ret POST_no_email
  /\ users (snd (POST collate req w)) = users w
  /\ fst (PUT collate req w) = Ret PUT_ok
  /\ users (snd (PUT collate req w)) = debit collate (Val "") (users w).
Proof.
  intros Hs He H2.
  assert (Hpost : POST_email (session w) = None)
    by (rewrite Hs; unfold signed_in, POST_email; cbn; now rewrite He).
  assert (Hput : PUT_email (session w) = Val "")
    by (rewrite Hs; exact He).
  pose proof (POST_response req w) as Hr.
  pose proof (POST_table req w) as Hu.
  pose proof (PUT_response req w) as Hr'.
  pose proof (PUT_table req w) as Hu'.
  rewrite Hr, Hu, Hr', Hu', Hpost, Hput, H2. repeat split.
Qed.

(** *** What a run leaves alone *)

Lemma quiet_skipn (k : nat) (l : list bool) :
  forallb negb l = true -> forallb negb (skipn k l) = true.
Proof.
  revert l. induction k as [|k IH]; intros l H; [exact H|].
  destruct l as [|b l]; [reflexivity|].
  simpl in *. apply andb_true_iff in H. apply IH, H.
Qed.

Lemma quiet_firstn (k : nat) (l : list bool) :
  forallb negb l = true -> forallb negb (firstn k l) = true.
Proof.
  revert l. induction k as [|k IH]; intros l H; [reflexivity|].
  destruct l as [|b l]; [reflexivity|].
  simpl in *. apply andb_true_iff in H. destruct H as [Hb Hl].
  now rewrite Hb, IH.
Qed.

Lemma fault_free_calls_ok (k : nat) (w : World) :
  fault_free w = true -> calls_ok k w = true.
Proof. apply quiet_firstn. Qed.

Ltac drops :=
  first [ exists 0%nat; reflexivity | exists 1%nat; reflexivity
        | exists 2%nat; reflexivity | exists 3%nat; reflexivity
        | exists 4%nat; reflexivity ].

Lemma GET_frame (req : Request) (w : World) :
  session (snd (GET collate req w)) = session w
  /\ exists k, faults (snd (GET collate req w)) = skipn k (faults w).
Proof.
  destruct w as [u t s f tr].
  destruct f as [|[] [|[] [|[] f]]]; (split; [reflexivity|drops]).
Qed.

Lemma PUT_frame (req : Request) (w : World) :
  session (snd (PUT collate req w)) = session w
  /\ exists k, faults (snd (PUT collate req w)) = skipn k (faults w).
Proof.
  destruct w as [u t s f tr].
  destruct s as [| |[[| |[n [| |e] i]]]];
    destruct f as [|[] [|[] [|[] f]]]; (split; [reflexivity|drops]).
Qed.

Lemma POST_frame (req : Request) (w : World) :
  session (snd (POST collate req w)) = session w
  /\ exists k, faults (snd (POST collate req w)) = skipn k (faults w).
Proof.
  destruct w as [u t s f tr].
  destruct s as [| |[[| |[n [| |[|c e]] i]]]];
    try (split; [reflexivity|drops]).
  unfold POST, createConnection, connection_end, execute, statement,
    console_log, console_error, record, driver_call, getServerSession,
    try_catch, bind, ret, throw.
  destruct f as [|[] [|[] [|[] [|[] f]]]];
    cbn -[filter has_match Z.of_nat Z.eqb List.length];
    rewrite ?select_empty;
    destruct (has_match collate (String c e) u);
    destruct n, i; (split; [reflexivity|drops]).
Qed.

Lemma POST_keeps_fault_free (req : Request) (w : World) :
  fault_free w = true -> fault_free (snd (POST collate req w)) = true.
Proof.
  intros H. destruct (POST_frame req w) as [_ [k Hk]].
  unfold fault_free. rewrite Hk. now apply quiet_skipn.
Qed.

Lemma PUT_keeps_fault_free (req : Request) (w : World) :
  fault_free w = true -> fault_free (snd (PUT collate req w)) = true.
Proof.
  intros H. destruct (PUT_frame req w) as [_ [k Hk]].
  unfold fault_free. rewrite Hk. now apply quiet_skipn.
Qed.

Lemma POST_email_PUT_email (s : JsOpt NextAuth.Session) (e : string) :
  POST_email s = Some e -> PUT_email s = Val e.
Proof.
  destruct s as [| |[[| |[n [| |e'] i]]]]; try discriminate.
  cbn. destruct (e' =? "")%string; [discriminate|].
  now intros [= ->].
Qed.

(** *** Calls one after the other *)

Lemma add_tokens_add (a b : Z) (r : Users.row) :
  Users.add_tokens b (Users.add_tokens a r) = Users.add_tokens (a + b) r.
Proof. unfold Users.add_tokens. simpl. f_equal. lia. Qed.

Lemma sub_tokens_sub (a b : Z) (r : Users.row) :
  Users.sub_tokens b (Users.sub_tokens a r) = Users.sub_tokens (a + b) r.
Proof. unfold Users.sub_tokens. simpl. f_equal. lia. Qed.

Lemma add_tokens_0 (r : Users.row) : Users.add_tokens 0 r = r.
Proof. destruct r. unfold Users.add_tokens. simpl. f_equal. lia. Qed.

Lemma sub_tokens_0 (r : Users.row) : Users.sub_tokens 0 r = r.
Proof. destruct r. unfold Users.sub_tokens. simpl. f_equal. lia. Qed.

Lemma has_match_update (e : string) (c : Users.row -> bool)
    (f : Users.row -> Users.row) (tbl : list Users.row) :
  (forall r, Users.email (f r) = Users.email r) ->
  has_match collate e (map (fun r => if c r then f r else r) tbl)
  = has_match collate e tbl.
Proof.
  intros Hf. unfold has_match.
  induction tbl as [|r tbl IH]; [reflexivity|].
  simpl. rewrite IH. f_equal.
  destruct (c r); [now rewrite Hf | reflexivity].
Qed.

Lemma top_up_after (d : Z) (e : string) (tbl : list Users.row) :
  top_up collate e
    (map (fun r => if sql_eq collate (Users.email r) (Val e)
                   then Users.add_tokens d r else r) tbl)
  = map (fun r => if sql_eq collate (Users.email r) (Val e)
                  then Users.add_tokens (d + 5) r else r) tbl.
Proof.
  unfold top_up. rewrite map_map. apply map_ext. intros r.
  destruct (sql_eq collate (Users.email r) (Val e)) eqn:E.
  - simpl. rewrite E. apply add_tokens_add.
  - now rewrite E.
Qed.

Lemma debit_after (d : Z) (p : Param) (tbl : list Users.row) :
  debit collate p
    (map (fun r => if sql_eq collate (Users.email r) p
                   then Users.sub_tokens d r else r) tbl)
  = map (fun r => if sql_eq collate (Users.email r) p
                  then Users.sub_tokens (d + 1) r else r) tbl.
Proof.
  unfold debit. rewrite map_map. apply map_ext. intros r.
  destruct (sql_eq collate (Users.email r) p) eqn:E.
  - simpl. rewrite E. apply sub_tokens_sub.
  - now rewrite E.
Qed.

Lemma repeatedly_POST (req : Request) (w : World) (e : string) (n : nat) :
  POST_email (session w) = Some e ->
  has_match collate e (users w) = true ->
  fault_free w = true ->
  session (repeatedly (POST collate req) n w) = session w
  /\ fault_free (repeatedly (POST collate req) n w) = true
  /\ users (repeatedly (POST collate req) n w)
     = map (fun r => if sql_eq collate (Users.email r) (Val e)
                     then Users.add_tokens (5 * Z.of_nat n) r else r)
         (users w).
Proof.
  intros He Hm Hq. induction n as [|n [IHs [IHq IHu]]].
  - repeat split; [exact Hq|]. cbn [repeatedly Nat.iter].
    symmetry. etransitivity; [|apply map_id]. apply map_ext. intros r.
    destruct (sql_eq collate (Users.email r) (Val e));
      [now rewrite add_tokens_0 | reflexivity].
  - change (repeatedly (POST collate req) (S n) w)
      with (snd (POST collate req (repeatedly (POST collate req) n w))).
    set (wn := repeatedly (POST collate req) n w) in *.
    split; [|split].
    + rewrite (proj1 (POST_frame req wn)). exact IHs.
    + now apply POST_keeps_fault_free.
    + rewrite (POST_table req wn), IHs, He.
      rewrite (fault_free_calls_ok 3 wn IHq), IHu.
      rewrite has_match_update by reflexivity. rewrite Hm.
      rewrite top_up_after. apply map_ext. intros r.
      replace (5 * Z.of_nat n + 5) with (5 * Z.of_nat (S n)) by lia.
      reflexivity.
Qed.

Lemma repeatedly_PUT (req : Request) (w : World) (e : string) (n : nat) :
  PUT_email (session w) = Val e ->
  fault_free w = true ->
  session (repeatedly (PUT collate req) n w) = session w
  /\ fault_free (repeatedly (PUT collate req) n w) = true
  /\ users (repeatedly (PUT collate req) n w)
     = map (fun r => if sql_eq collate (Users.email r) (Val e)
                     then Users.sub_tokens (Z.of_nat n) r else r)
         (users w).
Proof.
  intros He Hq. induction n as [|n [IHs [IHq IHu]]].
  - repeat split; [exact Hq|]. cbn [repeatedly Nat.iter].
    symmetry. etransitivity; [|apply map_id]. apply map_ext. intros r.
    destruct (sql_eq collate (Users.email r) (Val e));
      [now rewrite sub_tokens_0 | reflexivity].
  - change (repeatedly (PUT collate req) (S n) w)
      with (snd (PUT collate req (repeatedly (PUT collate req) n w))).
    set (wn := repeatedly (PUT collate req) n w) in *.
    split; [|split].
    + rewrite (proj1 (PUT_frame req wn)). exact IHs.
    + now apply PUT_keeps_fault_free.
    + rewrite (PUT_table req wn), IHs, He.
      rewrite (fault_free_calls_ok 2 wn IHq), IHu.
      cbn [is_undefined negb andb].
      rewrite debit_after. apply map_ext. intros r.
      replace (Z.of_nat n + 1) with (Z.of_nat (S n)) by lia.
      reflexivity.
Qed.

(** Registration is not idempotent: [n] POSTs in a row for an email that
    has a row add [5 * n] tokens to every matching row and leave the
    other columns, the other rows and the number of rows as they were. *)
Theorem POST_n_times (req : Request) (w : World) (e : string) (n : nat) :
  POST_email (session w) = Some e ->
  has_match collate e (users w) = true ->
  fault_free w = true ->
  Forall2
    (fun r r' =>
       if sql_eq collate (Users.email r) (Val e)
       then same_account r r'
            /\ Users.token_remaining r'
               = Users.token_remaining r + 5 * Z.of_nat n
       else r' = r)
    (users w) (users (repeatedly (POST collate req) n w)).
Proof.
  intros He Hm Hq.
  rewrite (proj2 (proj2 (repeatedly_POST req w e n He Hm Hq))).
  apply Forall2_map_self. intros r _.
  destruct (sql_eq collate (Users.email r) (Val e)); [|reflexivity].
  repeat split.
Qed.

(** [n] debits in a row subtract [n] tokens from every matching row,
    however low that takes the balance. *)
Theorem PUT_n_times (req : Request) (w : World) (e : string) (n : nat) :
  PUT_email (session w) = Val e ->
  fault_free w = true ->
  Forall2
    (fun r r' =>
       if sql_eq collate (Users.email r) (Val e)
       then same_account r r'
            /\ Users.token_remaining r'
               = Users.token_remaining r - Z.of_nat n
       else r' = r)
    (users w) (users (repeatedly (PUT collate req) n w)).
Proof.
  intros He Hq.
  rewrite (proj2 (proj2 (repeatedly_PUT req w e n He Hq))).
  apply Forall2_map_self. intros r _.
  destruct (sql_eq collate (Users.email r) (Val e)); [|reflexivity].
  repeat split.
Qed.

(** For an email that has a row, a top-up and a debit give the same table
    in either order. *)
Theorem POST_PUT_commute (req : Request) (w : World) (e : string) :
  POST_email (session w) = Some e ->
  has_match collate e (users w) = true ->
  fault_free w = true ->
  users (snd (PUT collate req (snd (POST collate req w))))
  = users (snd (POST collate req (snd (PUT collate req w)))).
Proof.
  intros He Hm Hq.
  pose proof (POST_email_PUT_email _ _ He) as Hp.
  set (w1 := snd (POST collate req w)).
  set (w2 := snd (PUT collate req w)).
  assert (Hs1 : session w1 = session w) by apply POST_frame.
  assert (Hs2 : session w2 = session w) by apply PUT_frame.
  assert (Hq1 : fault_free w1 = true) by now apply POST_keeps_fault_free.
  assert (Hq2 : fault_free w2 = true) by now apply PUT_keeps_fault_free.
  assert (Hu1 : users w1 = top_up collate e (users w)).
  { unfold w1. rewrite (POST_table req w), He.
    now rewrite (fault_free_calls_ok 3 w Hq), Hm. }
  assert (Hu2 : users w2 = debit collate (Val e) (users w)).
  { unfold w2. rewrite (PUT_table req w), Hp.
    now rewrite (fault_free_calls_ok 2 w Hq). }
  rewrite (PUT_table req w1), Hs1, Hp.
  rewrite (fault_free_calls_ok 2 w1 Hq1). cbn [is_undefined negb andb].
  rewrite (POST_table req w2), Hs2, He.
  rewrite (fault_free_calls_ok 3 w2 Hq2), Hu1, Hu2.
  unfold debit at 2. rewrite has_match_update by reflexivity. rewrite Hm.
  unfold top_up, debit. rewrite !map_map. apply map_ext. intros r.
  destruct (sql_eq collate (Users.email r) (Val e)) eqn:E; simpl; rewrite E.
  - unfold Users.add_tokens, Users.sub_tokens. simpl. f_equal. lia.
  - reflexivity.
Qed.

Lemma top_up_no_match (e : string) (tbl : list Users.row) :
  has_match collate e tbl = false -> top_up collate e tbl = tbl.
Proof.
  unfold has_match, top_up. induction tbl as [|r tbl IH]; [reflexivity|].
  simpl. destruct (sql_eq collate (Users.email r) (Val e)); [discriminate|].
  intros H. now rewrite IH.
Qed.

Lemma has_match_app (e : string) (a b : list Users.row) :
  has_match collate e (a ++ b)
  = has_match collate e a || has_match collate e b.
Proof. apply existsb_app. Qed.

(** For an email that has no row yet and equals itself under the
    collation, a session whose [name] and [image] are not [undefined], and
    a driver that does not fail, the order matters: a debit issued before
    the first registration is lost (the new row has 5 tokens), one issued
    after it is taken (the new row has 4). *)
Theorem debit_before_registration_is_lost (req : Request) (w : World)
    (e : string) :
  POST_email (session w) = Some e ->
  has_match collate e (users w) = false ->
  collate e e = true ->
  is_undefined (session_user_name (session w)) = false ->
  is_undefined (session_user_image (session w)) = false ->
  fault_free w = true ->
  users (snd (POST collate req (snd (PUT collate req w))))
  = users w ++ [new_user (session w) e (now w)]
  /\ users (snd (PUT collate req (snd (POST collate req w))))
     = users w ++ [Users.sub_tokens 1 (new_user (session w) e (now w))].
Proof.
  intros He Hm Hc Hn Hi Hq.
  pose proof (POST_email_PUT_email _ _ He) as Hp.
  set (w1 := snd (POST collate req w)).
  set (w2 := snd (PUT collate req w)).
  assert (Hs1 : session w1 = session w) by apply POST_frame.
  assert (Hs2 : session w2 = session w) by apply PUT_frame.
  assert (Hq1 : fault_free w1 = true) by now apply POST_keeps_fault_free.
  assert (Hq2 : fault_free w2 = true) by now apply PUT_keeps_fault_free.
  assert (Hu1 : users w1 = users w ++ [new_user (session w) e (now w)]).
  { unfold w1. rewrite (POST_table req w), He.
    now rewrite (fault_free_calls_ok 3 w Hq), Hm, Hn, Hi. }
  assert (Hu2 : users w2 = users w).
  { unfold w2. rewrite (PUT_table req w), Hp.
    rewrite (fault_free_calls_ok 2 w Hq). now apply debit_no_match. }
  assert (Ht2 : now w2 = now w).
  { unfold w2. rewrite (PUT_run collate req w); [reflexivity| |exact Hq].
    now rewrite Hp. }
  split.
  - rewrite (POST_table req w2), Hs2, He.
    now rewrite (fault_free_calls_ok 3 w2 Hq2), Hu2, Hm, Hn, Hi, Ht2.
  - rewrite (PUT_table req w1), Hs1, Hp.
    rewrite (fault_free_calls_ok 2 w1 Hq1), Hu1. cbn [is_undefined negb andb].
    unfold debit. rewrite map_app.
    change (map _ (users w)) with (debit collate (Val e) (users w)).
    rewrite (debit_no_match _ _ Hm). f_equal.
    cbn [map new_user Users.email sql_eq]. now rewrite Hc.
Qed.

(** *** One row per email *)

Lemma distinct_app_one (l : list (option string)) (b : option string) :
  distinct collate (l ++ [b])
  = distinct collate l && forallb (fun a => negb (sql_match collate a b)) l.
Proof.
  induction l as [|a l IH]; [reflexivity|].
  cbn [app distinct forallb]. rewrite forallb_app, IH. cbn [forallb].
  destruct (forallb (fun b0 => negb (sql_match collate a b0)) l),
    (negb (sql_match collate a b)), (distinct collate l),
    (forallb (fun a0 => negb (sql_match collate a0 b)) l); reflexivity.
Qed.

Lemma no_match_forallb (e : string) (tbl : list Users.row) :
  has_match collate e tbl = false ->
  forallb (fun a => negb (sql_match collate a (Some e)))
    (map Users.email tbl) = true.
Proof.
  unfold has_match. induction tbl as [|r tbl IH]; [reflexivity|].
  cbn [existsb map forallb]. intros H. apply orb_false_iff in H.
  destruct H as [Hr Ht]. rewrite (IH Ht), andb_true_r.
  unfold sql_eq in Hr. unfold sql_match.
  destruct (Users.email r); [now rewrite Hr | reflexivity].
Qed.

Lemma distinct_emails_top_up (e : string) (tbl : list Users.row) :
  distinct_emails collate (top_up collate e tbl)
  = distinct_emails collate tbl.
Proof.
  unfold distinct_emails, top_up. now rewrite map_email_update.
Qed.

Lemma distinct_emails_debit (p : Param) (tbl : list Users.row) :
  distinct_emails collate (debit collate p tbl) = distinct_emails collate tbl.
Proof.
  unfold distinct_emails, debit. now rewrite map_email_update.
Qed.

(** If no email of the table is matched by the email of a later row, the
    same holds after POST, after GET and after PUT, whatever the session
    and whatever fails: calls made one after the other never give an
    email a second row. *)
Lemma distinct_emails_kept (req : Request) (w : World) :
  distinct_emails collate (users w) = true ->
  distinct_emails collate (users (snd (POST collate req w))) = true
  /\ distinct_emails collate (users (snd (GET collate req w))) = true
  /\ distinct_emails collate (users (snd (PUT collate req w))) = true.
Proof.
  intros H. split; [|split].
  - rewrite (POST_table req w).
    destruct (POST_email (session w)) as [e|]; [|exact H].
    destruct (calls_ok 3 w); [|exact H].
    destruct (has_match collate e (users w)) eqn:Hm.
    + now rewrite distinct_emails_top_up.
    + destruct (negb (is_undefined (session_user_name (session w)))
                && negb (is_undefined (session_user_image (session w))));
        [|exact H].
      unfold distinct_emails. rewrite map_app. cbn [map new_user Users.email].
      rewrite distinct_app_one. fold (distinct_emails collate (users w)).
      rewrite H. now apply no_match_forallb.
  - now rewrite (GET_table req w).
  - rewrite (PUT_table req w).
    destruct (negb (is_undefined (PUT_email (session w))) && calls_ok 2 w);
      [|exact H].
    now rewrite distinct_emails_debit.
Qed.

(** *** Any sequence of calls *)

Lemma POST_email_has_email (sesh : JsOpt NextAuth.Session) (e : string)
    (t : Z) :
  POST_email sesh = Some e -> has_email (new_user sesh e t) = true.
Proof.
  destruct sesh as [| |[[| |[n [| |e'] i]]]]; try discriminate.
  cbn. destruct (e' =? "")%string eqn:E; [discriminate|].
  intros [= <-]. now rewrite E.
Qed.

Lemma forallb_has_email_update (c : Users.row -> bool)
    (f : Users.row -> Users.row) (tbl : list Users.row) :
  (forall r, Users.email (f r) = Users.email r) ->
  forallb has_email (map (fun r => if c r then f r else r) tbl)
  = forallb has_email tbl.
Proof.
  intros Hf. induction tbl as [|r tbl IH]; [reflexivity|].
  cbn [map forallb]. rewrite IH. f_equal.
  destruct (c r); [|reflexivity]. unfold has_email. now rewrite Hf.
Qed.

(** If every row has an email that is neither NULL nor empty, so it is
    after POST, GET and PUT, on every run: the route never stores a row
    without an email. *)
Lemma rows_have_emails (req : Request) (w : World) (m : Method) :
  forallb has_email (users w) = true ->
  forallb has_email (users (snd (handle collate m req w))) = true.
Proof.
  intros H. destruct m; cbn [handle].
  - rewrite (POST_table req w).
    destruct (POST_email (session w)) as [e|] eqn:He; [|exact H].
    destruct (calls_ok 3 w); [|exact H].
    destruct (has_match collate e (users w)).
    + unfold top_up. now rewrite forallb_has_email_update.
    + destruct (negb (is_undefined (session_user_name (session w)))
                && negb (is_undefined (session_user_image (session w))));
        [|exact H].
      rewrite forallb_app, H. cbn [forallb].
      now rewrite (POST_email_has_email _ _ _ He).
  - now rewrite (GET_table req w).
  - rewrite (PUT_table req w).
    destruct (negb (is_undefined (PUT_email (session w))) && calls_ok 2 w);
      [|exact H].
    unfold debit. now rewrite forallb_has_email_update.
Qed.

Lemma serve_all_invariant (I : list Users.row -> Prop) :
  (forall m req w, I (users w) -> I (users (snd (handle collate m req w)))) ->
  forall cs w, I (users w) -> I (users (serve_all collate cs w)).
Proof.
  intros Hstep cs. induction cs as [|c cs IH]; intros w Hw; [exact Hw|].
  cbn [serve_all fold_left]. apply IH. unfold serve.
  now apply Hstep.
Qed.

(** If no email of the table is matched by the email of a later row, the
    same holds after any sequence of calls, whatever their methods,
    sessions and driver failures: calls made one after the other never
    give an email a second row. *)
Theorem any_sequence_distinct_emails (cs : list Call) (w : World) :
  distinct_emails collate (users w) = true ->
  distinct_emails collate (users (serve_all collate cs w)) = true.
Proof.
  apply (serve_all_invariant (fun tbl => distinct_emails collate tbl = true)).
  intros m req w' H. destruct (distinct_emails_kept req w' H) as [? [? ?]].
  now destruct m.
Qed.

(** If every row has an email that is neither NULL nor empty, so it is
    after any sequence of calls: the route never stores a row without an
    email. *)
Theorem any_sequence_rows_have_emails (cs : list Call) (w : World) :
  forallb has_email (users w) = true ->
  forallb has_email (users (serve_all collate cs w)) = true.
Proof.
  apply (serve_all_invariant (fun tbl => forallb has_email tbl = true)).
  intros m req w' H. now apply rows_have_emails.
Qed.

(** Over any sequence of calls the table only grows: the emails of the
    rows it had are still there, in the same order, followed by those of
    the rows added since. *)
Theorem any_sequence_keeps_accounts (cs : list Call) (w : World) :
  exists added,
    map Users.email (users (serve_all collate cs w))
    = map Users.email (users w) ++ added.
Proof.
  apply (serve_all_invariant (fun tbl => grows_by_email (users w) tbl));
    [|apply grows_by_email_refl].
  intros m req w' H. eapply grows_by_email_trans; [exact H|].
  destruct m; cbn [handle].
  - apply (POST_keeps_accounts collate req w').
  - apply (GET_keeps_accounts collate req w').
  - apply (PUT_keeps_accounts collate req w').
Qed.

(** On every run a handler reads the session at most once (GET never),
    and sends at most one writing statement (GET none). *)
Theorem at_most_one_write (m : Method) (req : Request) (w : World) :
  exists evs,
    trace (snd (handle collate m req w)) = trace w ++ evs
    /\ (List.length (db_writes evs) <= 1)%nat
    /\ session_calls evs
       = (match m with MGET => [] | _ => [EvGetServerSession] end)
    /\ (match m with MGET => db_writes evs = [] | _ => True end).
Proof.
  destruct w as [u t s f tr]. destruct m; cbn [handle].
  - destruct s as [| |[[| |[n [| |[|c e]] i]]]];
      try (new_events; solve [cbn; lia | exact I]).
    unfold POST, createConnection, connection_end, execute, statement,
      console_log, console_error, record, driver_call, getServerSession,
      try_catch, bind, ret, throw.
    destruct f as [|[] [|[] [|[] [|[] f]]]];
      cbn -[filter has_match Z.of_nat Z.eqb List.length];
      rewrite ?select_empty;
      destruct (has_match collate (String c e) u);
      destruct n, i; new_events; solve [cbn; lia | exact I].
  - destruct f as [|[] [|[] [|[] f]]]; new_events; cbn; lia.
  - destruct s as [| |[[| |[n [| |e] i]]]];
      destruct f as [|[] [|[] [|[] f]]];
      new_events; solve [cbn; lia | exact I].
Qed.

End EveryRun.

Lemma PUT_unknown_email_witness :
  let w := world_of [account "b@x.com" 2] (signed_in named_identity) in
  fst (PUT binary some_request w) = Ret PUT_ok
  /\ users (snd (PUT binary some_request w)) = [account "b@x.com" 2].
Proof.
  intros w.
  exact (PUT_unknown_email binary some_request w "a@x.com"
           eq_refl eq_refl eq_refl).
Defined.

Lemma empty_email_POST_and_PUT_witness :
  let u := {| NextAuth.name := Val "Eve"; NextAuth.email := Val "";
              NextAuth.image := Null |} in
  let w := world_of [account "" 3; account "b@x.com" 2] (signed_in u) in
  fst (POST binary some_request w) = Ret POST_no_email
  /\ users (snd (POST binary some_request w)) = users w
  /\ fst (PUT binary some_request w) = Ret PUT_ok
  /\ users (snd (PUT binary some_request w))
     = [account "" 2; account "b@x.com" 2].
Proof.
  intros u w.
  exact (empty_email_POST_and_PUT binary some_request w u
           eq_refl eq_refl eq_refl).
Defined.

Lemma POST_n_times_witness :
  users (repeatedly (POST binary some_request) 3
           (world_of [account "b@x.com" 2; account "a@x.com" 5]
              (signed_in named_identity)))
  = [account "b@x.com" 2; account "a@x.com" 20]
  /\ Forall2
       (fun r r' =>
          if sql_eq binary (Users.email r) (Val "a@x.com")
          then same_account r r'
               /\ Users.token_remaining r'
                  = Users.token_remaining r + 5 * Z.of_nat 3
          else r' = r)
       [account "b@x.com" 2; account "a@x.com" 5]
       (users (repeatedly (POST binary some_request) 3
                 (world_of [account "b@x.com" 2; account "a@x.com" 5]
                    (signed_in named_identity)))).
Proof.
  split; [reflexivity|].
  exact (POST_n_times binary some_request
           (world_of [account "b@x.com" 2; account "a@x.com" 5]
              (signed_in named_identity))
           "a@x.com" 3 eq_refl eq_refl eq_refl).
Defined.

Lemma PUT_n_times_witness :
  users (repeatedly (PUT binary some_request) 3
           (world_of [account "a@x.com" 1] (signed_in named_identity)))
  = [account "a@x.com" (-2)]
  /\ Forall2
       (fun r r' =>
          if sql_eq binary (Users.email r) (Val "a@x.com")
          then same_account r r'
               /\ Users.token_remaining r'
                  = Users.token_remaining r - Z.of_nat 3
          else r' = r)
       [account "a@x.com" 1]
       (users (repeatedly (PUT binary some_request) 3
                 (world_of [account "a@x.com" 1] (signed_in named_identity)))).
Proof.
  split; [reflexivity|].
  exact (PUT_n_times binary some_request
           (world_of [account "a@x.com" 1] (signed_in named_identity))
           "a@x.com" 3 eq_refl eq_refl).
Defined.

Lemma POST_PUT_commute_witness :
  let w := world_of [account "b@x.com" 2; account "a@x.com" 5]
             (signed_in named_identity) in
  users (snd (PUT binary some_request (snd (POST binary some_request w))))
  = [account "b@x.com" 2; account "a@x.com" 9]
  /\ users (snd (PUT binary some_request (snd (POST binary some_request w))))
     = users (snd (POST binary some_request (snd (PUT binary some_request w)))).
Proof.
  intros w. split; [reflexivity|].
  exact (POST_PUT_commute binary some_request w "a@x.com"
           eq_refl eq_refl eq_refl).
Defined.

Lemma debit_before_registration_is_lost_witness :
  let w := world_of [account "b@x.com" 2] (signed_in named_identity) in
  map Users.token_remaining
    (users (snd (POST binary some_request (snd (PUT binary some_request w)))))
  = [2; 5]
  /\ map Users.token_remaining
       (users (snd (PUT binary some_request (snd (POST binary some_request w)))))
     = [2; 4].
Proof.
  intros w.
  destruct (debit_before_registration_is_lost binary some_request w "a@x.com"
              eq_refl eq_refl eq_refl eq_refl eq_refl eq_refl) as [H1 H2].
  rewrite H1, H2. split; reflexivity.
Defined.

Lemma any_sequence_distinct_emails_witness :
  let w := world_of [account "b@x.com" 2] Null in
  map Users.token_remaining (users (serve_all binary example_calls w))
  = [2; 10]
  /\ distinct_emails binary (users (serve_all binary example_calls w)) = true.
Proof.
  intros w. split; [reflexivity|].
  exact (any_sequence_distinct_emails binary example_calls w eq_refl).
Defined.

Lemma any_sequence_rows_have_emails_witness :
  let w := world_of [] Null in
  map Users.email (users (serve_all binary example_calls w))
  = [Some "a@x.com"]
  /\ forallb has_email (users (serve_all binary example_calls w)) = true.
Proof.
  intros w. split; [reflexivity|].
  exact (any_sequence_rows_have_emails binary example_calls w eq_refl).
Defined.
